(** * util.c of CPU Energy Meter: privilege dropping and CPU affinity

    A shallow embedding of [src/util.c].  The file is a thin wrapper over
    POSIX/Linux facilities, so the embedding has three layers:

    - the C data the code handles ([int], [uid_t], [gid_t], [cap_t],
      [cpu_set_t] and pointers to [cpu_set_t] objects);
    - the operating system, an interface [OS] whose operations the code
      calls and whose answers it cannot control;
    - the functions of [util.c], written in a state-and-exit monad over the
      program's own state (the static [debug_enabled], the [cpu_set_t]
      objects in memory) and the operating system's.

    Every call the program makes is also appended to a trace, so that
    "attempts", "in order" and "no call is made" are statements about that
    trace. *)

From Stdlib Require Import String ZArith NArith List Bool Lia.
Import ListNotations.
Open Scope Z_scope.

(** ** C data *)

(** [int] is a signed machine integer.  No function of the file does
    arithmetic on one: they are return codes and a CPU index, compared with
    constants. *)
Abbreviation int := Z (only parsing).

(** [uid_t] and [gid_t] are unsigned. *)
Abbreviation uid_t := N (only parsing).
Abbreviation gid_t := N (only parsing).

(** Pointers are [NULL] or the address of an object. *)
Definition addr := nat.

Inductive pointer : Type :=
| NULL
| Ptr (a : addr).

Definition is_null (p : pointer) : bool :=
  match p with NULL => true | Ptr _ => false end.

Definition pointer_eqb (p q : pointer) : bool :=
  match p, q with
  | NULL, NULL => true
  | Ptr a, Ptr b => Nat.eqb a b
  | _, _ => false
  end.

(** [cap_t] is a pointer to a capability state kept by libcap. *)
Abbreviation cap_t := pointer (only parsing).

(** *** CPU sets *)

(** Modelled from the spec: [cpu_set_t] comes from <sched.h>, which is not
    under src/.  The spec describes "a fixed-size bitset of CPU indices";
    glibc's has [CPU_SETSIZE] = 1024 bits.  A set is the bit mask of its
    members. *)
Abbreviation cpu_set_t := N (only parsing).

Definition CPU_SETSIZE : Z := 1024.

(** The conversion of an [int] to the 64-bit [size_t]. *)
Definition size_t_of_int (i : int) : Z := i mod 2 ^ 64.

(** Modelled from the spec: the macros [CPU_ZERO], [CPU_SET] and
    [CPU_ISSET] of <sched.h>, here by their effect on the value of a set.
    The spec gives them as emptying a set, adding a CPU and testing
    membership; for an index the set has no bit for it is silent, and these
    do what glibc's do: the index is converted to [size_t], and when it is
    not below [CPU_SETSIZE] the set is left as it is and the test answers
    0. *)
Definition cpu_zero : cpu_set_t := 0%N.

Definition cpu_set (cpu : int) (set : cpu_set_t) : cpu_set_t :=
  let __cpu := size_t_of_int cpu in
  if __cpu <? CPU_SETSIZE then N.setbit set (Z.to_N __cpu) else set.

Definition cpu_isset (cpu : int) (set : cpu_set_t) : bool :=
  let __cpu := size_t_of_int cpu in
  if __cpu <? CPU_SETSIZE then N.testbit set (Z.to_N __cpu) else false.

(** A well-formed set has no bit at or above [CPU_SETSIZE]. *)
Definition cpu_set_wf (set : cpu_set_t) : Prop :=
  (set < 2 ^ Z.to_N CPU_SETSIZE)%N.

(** *** Memory of [cpu_set_t] objects *)

(** The [cpu_set_t] objects live in a stack of cells: the caller's objects
    first, a function's local on top while the function runs.  A pointer is
    valid when it addresses a cell.  Reading through [NULL] or a dangling
    pointer is undefined in C; here it reads the empty set and a write does
    nothing, and the theorems that depend on a pointer assume it valid. *)
Definition memory := list N.

Definition load (p : pointer) (m : memory) : cpu_set_t :=
  match p with
  | NULL => cpu_zero
  | Ptr a => nth a m cpu_zero
  end.

Fixpoint store_at (a : addr) (v : cpu_set_t) (m : memory) : memory :=
  match m, a with
  | [], _ => []
  | _ :: m', O => v :: m'
  | x :: m', S a' => x :: store_at a' v m'
  end.

Definition store (p : pointer) (v : cpu_set_t) (m : memory) : memory :=
  match p with
  | NULL => m
  | Ptr a => store_at a v m
  end.

Definition valid (p : pointer) (m : memory) : Prop :=
  match p with
  | NULL => False
  | Ptr a => (a < length m)%nat
  end.

(** ** The operating system *)

(** What the program does that the outside can see: the calls it makes with
    their arguments and results, and the lines it writes to standard error
    through <err.h>. *)
Inductive event : Type :=
| Getgid (r : gid_t)
| Getegid (r : gid_t)
| Getuid (r : uid_t)
| Geteuid (r : uid_t)
| Setgroups (list : list N) (rc : int)
| Setregid (rgid egid : gid_t) (rc : int)
| Setreuid (ruid euid : uid_t) (rc : int)
| Setegid (egid : gid_t) (rc : int)
| Seteuid (euid : uid_t) (rc : int)
| Cap_get_proc (r : cap_t)
| Cap_clear (c : cap_t) (rc : int)
| Cap_set_proc (c : cap_t) (rc : int)
| Cap_free (c : cap_t) (rc : int)
| Sched_getaffinity (rc : int) (mask : cpu_set_t)
| Sched_setaffinity (mask : cpu_set_t) (rc : int)
| Warn (msg : string) (args : list Z)
| Warnx (msg : string) (args : list Z)
| Err (status : int) (msg : string)
| Errx (status : int) (msg : string).

(** The interface of the system the code runs on.  The four identity
    queries cannot fail and change nothing (POSIX: "always successful"), so
    they are observations of the world; every other call answers and moves
    the world on, and the code has no say in the answer.
    [os_sched_getaffinity] receives the content of the buffer it is handed
    and gives back the buffer's content after the call. *)
Class OS (world : Type) : Type := {
  os_getgid : world -> gid_t;
  os_getegid : world -> gid_t;
  os_getuid : world -> uid_t;
  os_geteuid : world -> uid_t;
  os_setgroups : list N -> world -> int * world;
  os_setregid : gid_t -> gid_t -> world -> int * world;
  os_setreuid : uid_t -> uid_t -> world -> int * world;
  os_setegid : gid_t -> world -> int * world;
  os_seteuid : uid_t -> world -> int * world;
  os_cap_get_proc : world -> cap_t * world;
  os_cap_clear : cap_t -> world -> int * world;
  os_cap_set_proc : cap_t -> world -> int * world;
  os_cap_free : cap_t -> world -> int * world;
  os_sched_getaffinity : cpu_set_t -> world -> (int * cpu_set_t) * world;
  os_sched_setaffinity : cpu_set_t -> world -> int * world
}.

(** ** The program's monad *)

Section Program.

Context {world : Type} {system : OS world}.

(** The state of a run: [static int debug_enabled], the [cpu_set_t]
    objects, the world outside and the trace so far. *)
Record state : Type := mkState {
  debug_enabled : int;
  mem : memory;
  os : world;
  trace : list event
}.

(** A call returns a value or ends the process with an exit status. *)
Inductive outcome (A : Type) : Type :=
| Returns (a : A) (s : state)
| Exits (status : int) (s : state).

Arguments Returns {A} a s.
Arguments Exits {A} status s.

Definition M (A : Type) : Type := state -> outcome A.

Definition ret {A : Type} (a : A) : M A := fun s => Returns a s.

Definition bind {A B : Type} (m : M A) (k : A -> M B) : M B :=
  fun s =>
    match m s with
    | Returns a s' => k a s'
    | Exits status s' => Exits status s'
    end.

Definition final {A : Type} (o : outcome A) : state :=
  match o with Returns _ s => s | Exits _ s => s end.

Definition log (e : event) (s : state) : state :=
  mkState (debug_enabled s) (mem s) (os s) (trace s ++ [e]).

(** [if (c) m;] *)
Definition when (c : bool) (m : M unit) : M unit :=
  if c then m else ret tt.

(** The short-circuit operators [&&] and [||] on conditions that make
    calls: the right operand runs only when the left one does not decide. *)
Definition and_then (a b : M bool) : M bool :=
  bind a (fun x => if x then b else ret false).

Definition or_else (a b : M bool) : M bool :=
  bind a (fun x => if x then ret true else b).

End Program.

Arguments state world : clear implicits.
Arguments outcome world A : clear implicits.
Arguments M world A : clear implicits.
Arguments Returns {world A} a s.
Arguments Exits {world A} status s.

Declare Scope prog_scope.
Delimit Scope prog_scope with prog.
Notation "x <- m ;; k" := (bind m (fun x => k))
  (at level 100, m at next level, right associativity) : prog_scope.
Notation "m ;; k" := (bind m (fun _ => k))
  (at level 100, right associativity) : prog_scope.
Open Scope prog_scope.
Infix "&&&" := and_then (at level 40, left associativity) : prog_scope.
Infix "|||" := or_else (at level 50, left associativity) : prog_scope.

(** ** The calls the program makes *)

Section Util.

Context {world : Type} {system : OS world}.

(** An observation of the world, recorded in the trace. *)
Definition observe {A : Type} (f : world -> A) (ev : A -> event)
  : M world A :=
  fun s => let r := f (os s) in Returns r (log (ev r) s).

(** A call that moves the world on, recorded with its result. *)
Definition syscall {A : Type} (f : world -> A * world) (ev : A -> event)
  : M world A :=
  fun s =>
    let (r, w) := f (os s) in
    Returns r (mkState (debug_enabled s) (mem s) w (trace s ++ [ev r])).

Definition getgid : M world gid_t := observe os_getgid Getgid.
Definition getegid : M world gid_t := observe os_getegid Getegid.
Definition getuid : M world uid_t := observe os_getuid Getuid.
Definition geteuid : M world uid_t := observe os_geteuid Geteuid.

(** [setgroups(size, list)], the list given with its [size] elements. *)
Definition setgroups (list : list N) : M world int :=
  syscall (os_setgroups list) (Setgroups list).

Definition setregid (rgid egid : gid_t) : M world int :=
  syscall (os_setregid rgid egid) (Setregid rgid egid).

Definition setreuid (ruid euid : uid_t) : M world int :=
  syscall (os_setreuid ruid euid) (Setreuid ruid euid).

Definition setegid (egid : gid_t) : M world int :=
  syscall (os_setegid egid) (Setegid egid).

Definition seteuid (euid : uid_t) : M world int :=
  syscall (os_seteuid euid) (Seteuid euid).

Definition cap_get_proc : M world cap_t :=
  syscall os_cap_get_proc Cap_get_proc.

Definition cap_clear (c : cap_t) : M world int :=
  syscall (os_cap_clear c) (Cap_clear c).

Definition cap_set_proc (c : cap_t) : M world int :=
  syscall (os_cap_set_proc c) (Cap_set_proc c).

Definition cap_free (c : cap_t) : M world int :=
  syscall (os_cap_free c) (Cap_free c).

(** [sched_getaffinity(0, sizeof(cpu_set_t), mask)]: the system fills the
    object [mask] points to. *)
Definition sched_getaffinity (mask : pointer) : M world int :=
  fun s =>
    let '(rc, set, w) := os_sched_getaffinity (load mask (mem s)) (os s) in
    Returns rc (mkState (debug_enabled s) (store mask set (mem s)) w
                        (trace s ++ [Sched_getaffinity rc set])).

(** [sched_setaffinity(0, sizeof(cpu_set_t), mask)]: the system reads the
    object [mask] points to. *)
Definition sched_setaffinity (mask : pointer) : M world int :=
  fun s =>
    let set := load mask (mem s) in
    let (rc, w) := os_sched_setaffinity set (os s) in
    Returns rc (mkState (debug_enabled s) (mem s) w
                        (trace s ++ [Sched_setaffinity set rc])).

(** <err.h>: [warn] and [warnx] write a line to standard error and return;
    [err] and [errx] write it and end the process with [status].  The
    variants without x append the description of [errno]. *)
Definition warn (msg : string) (args : list Z) : M world unit :=
  fun s => Returns tt (log (Warn msg args) s).

Definition warnx (msg : string) (args : list Z) : M world unit :=
  fun s => Returns tt (log (Warnx msg args) s).

Definition err {A : Type} (status : int) (msg : string) : M world A :=
  fun s => Exits status (log (Err status msg) s).

Definition errx {A : Type} (status : int) (msg : string) : M world A :=
  fun s => Exits status (log (Errx status msg) s).

(** The <sched.h> macros on the object a pointer addresses. *)
Definition CPU_ZERO (set : pointer) : M world unit :=
  fun s =>
    Returns tt (mkState (debug_enabled s) (store set cpu_zero (mem s))
                        (os s) (trace s)).

Definition CPU_SET (cpu : int) (set : pointer) : M world unit :=
  fun s =>
    Returns tt
      (mkState (debug_enabled s)
               (store set (cpu_set cpu (load set (mem s))) (mem s))
               (os s) (trace s)).

Definition CPU_ISSET (cpu : int) (set : pointer) : M world bool :=
  fun s => Returns (cpu_isset cpu (load set (mem s))) s.

(** A local variable [cpu_set_t x;]: a cell on top of the stack for the
    time of [body], which gets its address.  Its first content is
    indeterminate in C; both users overwrite it with [CPU_ZERO] before any
    read. *)
Definition local_cpu_set {A : Type} (body : pointer -> M world A)
  : M world A :=
  fun s =>
    let x := Ptr (length (mem s)) in
    match body x (mkState (debug_enabled s) (mem s ++ [cpu_zero])
                          (os s) (trace s)) with
    | Returns a s' =>
        Returns a (mkState (debug_enabled s') (removelast (mem s'))
                           (os s') (trace s'))
    | Exits status s' => Exits status s'
    end.

(** ** util.c *)

(** [static int debug_enabled = 0;] is the field of [state]; a process
    starts with it at 0. *)
Definition start (w : world) (m : memory) : state world :=
  mkState 0 m w [].

Definition enable_debug : M world unit :=
  fun s => Returns tt (mkState 1 (mem s) (os s) (trace s)).

Definition is_debug_enabled : M world int :=
  fun s => Returns (debug_enabled s) s.

(** Modelled from the spec: the [DEBUG] macro of util.h, which is not under
    src/.  The spec has its message "logged at debug level only": it is
    written to standard error when the debug flag is set, and nothing
    happens otherwise. *)
Definition DEBUG (msg : string) (args : list Z) : M world unit :=
  enabled <- is_debug_enabled ;;
  when (negb (enabled =? 0)) (warnx msg args).

Definition drop_capabilities : M world unit :=
  capabilities <- cap_get_proc ;;
  when (is_null capabilities)
    (err 1 "Getting capabilities of process failed") ;;
  r <- cap_clear capabilities ;;
  when (negb (r =? 0)) (err 1 "cap_clear failed") ;;
  r <- cap_set_proc capabilities ;;
  when (negb (r =? 0)) (err 1 "Dropping capabilities failed") ;;
  r <- cap_free capabilities ;;
  when (negb (r =? 0)) (err 1 "cap_free failed").

Definition drop_root_privileges_by_id (uid : uid_t) (gid : gid_t)
  : M world unit :=
  newgid <- (if (0 <? gid)%N then ret gid else getgid) ;;
  oldgid <- getegid ;;
  newuid <- (if (0 <? uid)%N then ret uid else getuid) ;;
  olduid <- geteuid ;;
  if negb (olduid =? 0)%N && negb (oldgid =? 0)%N then
    DEBUG "Not changing UID because not running as root (uid=%d gid=%d)."
          [Z.of_N olduid; Z.of_N oldgid]
  else
    when (olduid =? 0)%N (_ <- setgroups [newgid] ;; ret tt) ;;
    when (negb (newgid =? oldgid)%N)
      (r <- setregid newgid newgid ;;
       when (r =? -1) (err 1 "Changing group id of process failed")) ;;
    when (negb (newuid =? olduid)%N)
      (r <- setreuid newuid newuid ;;
       when (r =? -1) (err 1 "Changing user id of process failed")) ;;
    c <- ret (negb (newgid =? oldgid)%N)
         &&& ((r <- setegid oldgid ;; ret (negb (r =? -1)))
              ||| (g <- getegid ;; ret (negb (g =? newgid)%N))) ;;
    when c (errx 1 "Changing group id of process failed") ;;
    c <- ret (negb (newuid =? olduid)%N)
         &&& ((r <- seteuid olduid ;; ret (negb (r =? -1)))
              ||| (u <- geteuid ;; ret (negb (u =? newuid)%N))) ;;
    when c (errx 1 "Changing user id of process failed").

Definition bind_context (new_context old_context : pointer) : M world int :=
  let set_affinity :=
    r <- sched_setaffinity new_context ;;
    if r =? -1 then
      warn "Could not set CPU affinity of process" [] ;; ret (-1)
    else ret 0 in
  if negb (is_null old_context) then
    r <- sched_getaffinity old_context ;;
    if r =? -1 then
      warn "Could not retrieve CPU affinity of process" [] ;; ret (-1)
    else set_affinity
  else set_affinity.

Definition bind_cpu (cpu : int) (old_context : pointer) : M world int :=
  local_cpu_set (fun cpu_context =>
    CPU_ZERO cpu_context ;;
    CPU_SET cpu cpu_context ;;
    bind_context cpu_context old_context).

Definition is_cpu_offline (cpu : int) : M world int :=
  local_cpu_set (fun cpu_context =>
    CPU_ZERO cpu_context ;;
    r <- sched_getaffinity cpu_context ;;
    if r =? -1 then
      warn "Could not retrieve CPU affinity of process" [] ;; ret (-1)
    else
      isset <- CPU_ISSET cpu cpu_context ;;
      if negb isset then warn "CPU %d is offline" [cpu] ;; ret 1
      else ret 0).

End Util.

(** ** A small Linux process

    An instance of [OS] to run the code on: the credentials of a process
    with the rules of setregid(2), setreuid(2), setegid(2), seteuid(2) and
    setgroups(2), the two capabilities those rules ask for, libcap's
    working copy of the capability state, and the affinity mask.  It is as
    detailed as the runs below need: the permitted capability set is not
    kept apart from the effective one. *)

Module Linux.

Record process : Type := mkProcess {
  ruid : N; euid : N; suid : N;
  rgid : N; egid : N; sgid : N;
  groups : list N;
  cap_setuid : bool;
  cap_setgid : bool;
  cap_work : option bool;  (* libcap's copy: [Some true] once cleared *)
  affinity : N;
  online : N
}.

Definition with_groups (l : list N) (p : process) : process :=
  mkProcess (ruid p) (euid p) (suid p) (rgid p) (egid p) (sgid p) l
            (cap_setuid p) (cap_setgid p) (cap_work p)
            (affinity p) (online p).

Definition with_gids (r e sv : N) (p : process) : process :=
  mkProcess (ruid p) (euid p) (suid p) r e sv (groups p)
            (cap_setuid p) (cap_setgid p) (cap_work p)
            (affinity p) (online p).

(** A process whose user ids were not all non-zero and become so loses its
    capabilities, and so does one whose effective uid leaves 0. *)
Definition with_uids (r e sv : N) (p : process) : process :=
  let had_root := (ruid p =? 0)%N || (euid p =? 0)%N || (suid p =? 0)%N in
  let has_root := (r =? 0)%N || (e =? 0)%N || (sv =? 0)%N in
  let lost := (had_root && negb has_root)
              || ((euid p =? 0)%N && negb (e =? 0)%N) in
  mkProcess r e sv (rgid p) (egid p) (sgid p) (groups p)
            (cap_setuid p && negb lost) (cap_setgid p && negb lost)
            (cap_work p) (affinity p) (online p).

Definition with_caps (su sg : bool) (work : option bool) (p : process)
  : process :=
  mkProcess (ruid p) (euid p) (suid p) (rgid p) (egid p) (sgid p) (groups p)
            su sg work (affinity p) (online p).

Definition with_affinity (a : N) (p : process) : process :=
  mkProcess (ruid p) (euid p) (suid p) (rgid p) (egid p) (sgid p) (groups p)
            (cap_setuid p) (cap_setgid p) (cap_work p) a (online p).

Definition one_of (x : N) (l : list N) : bool :=
  existsb (N.eqb x) l.

Definition setgroups (l : list N) (p : process) : Z * process :=
  if cap_setgid p then (0, with_groups l p) else (-1, p).

Definition setregid (r e : N) (p : process) : Z * process :=
  if cap_setgid p
     || (one_of r [rgid p; egid p] && one_of e [rgid p; egid p; sgid p])
  then (0, with_gids r e e p) else (-1, p).

Definition setreuid (r e : N) (p : process) : Z * process :=
  if cap_setuid p
     || (one_of r [ruid p; euid p] && one_of e [ruid p; euid p; suid p])
  then (0, with_uids r e e p) else (-1, p).

Definition setegid (e : N) (p : process) : Z * process :=
  if cap_setgid p || one_of e [rgid p; egid p; sgid p]
  then (0, with_gids (rgid p) e (sgid p) p) else (-1, p).

Definition seteuid (e : N) (p : process) : Z * process :=
  if cap_setuid p || one_of e [ruid p; euid p; suid p]
  then (0, with_uids (ruid p) e (suid p) p) else (-1, p).

(** libcap hands out one working copy, at address 1. *)
Definition handle : pointer := Ptr 1%nat.

Definition cap_get_proc (p : process) : pointer * process :=
  (handle, with_caps (cap_setuid p) (cap_setgid p) (Some false) p).

Definition held (c : pointer) (p : process) : bool :=
  pointer_eqb c handle
  && match cap_work p with Some _ => true | None => false end.

Definition cap_clear (c : pointer) (p : process) : Z * process :=
  if held c p
  then (0, with_caps (cap_setuid p) (cap_setgid p) (Some true) p)
  else (-1, p).

Definition cap_set_proc (c : pointer) (p : process) : Z * process :=
  if held c p then
    match cap_work p with
    | Some true => (0, with_caps false false (cap_work p) p)
    | _ => (0, p)
    end
  else (-1, p).

Definition cap_free (c : pointer) (p : process) : Z * process :=
  if held c p
  then (0, with_caps (cap_setuid p) (cap_setgid p) None p)
  else (-1, p).

Definition sched_getaffinity (buf : N) (p : process) : (Z * N) * process :=
  ((0, affinity p), p).

(** A mask with no CPU of the machine is refused (EINVAL). *)
Definition sched_setaffinity (set : N) (p : process) : Z * process :=
  let cpus := N.land set (online p) in
  if (cpus =? 0)%N then (-1, p) else (0, with_affinity cpus p).

#[global] Instance system : OS process := {
  os_getgid := rgid;
  os_getegid := egid;
  os_getuid := ruid;
  os_geteuid := euid;
  os_setgroups := setgroups;
  os_setregid := setregid;
  os_setreuid := setreuid;
  os_setegid := setegid;
  os_seteuid := seteuid;
  os_cap_get_proc := cap_get_proc;
  os_cap_clear := cap_clear;
  os_cap_set_proc := cap_set_proc;
  os_cap_free := cap_free;
  os_sched_getaffinity := sched_getaffinity;
  os_sched_setaffinity := sched_setaffinity
}.

(** root, with every capability, on a machine of four CPUs. *)
Definition root : process :=
  mkProcess 0 0 0 0 0 0 [0; 4; 27]%N true true None 15 15.

(** A user's process. *)
Definition user : process :=
  mkProcess 1000 1000 1000 1000 1000 1000 [1000; 27]%N
            false false None 15 15.

(** A user running a set-group-id program of group 2000. *)
Definition setgid_program : process :=
  mkProcess 1000 1000 1000 1000 2000 2000 [1000; 27]%N
            false false None 15 15.

(** root in a container started without CAP_SETGID. *)
Definition root_without_setgid : process :=
  mkProcess 0 0 0 0 0 0 [0; 4; 27]%N true false None 15 15.

End Linux.

(** ** Vocabulary of the properties *)

Section Vocabulary.

Context {world : Type} {system : OS world}.

(** What a call added to the trace. *)
Definition events_since {A : Type} (s : state world) (o : outcome world A)
  : list event :=
  skipn (length (trace s)) (trace (final o)).

Definition returns {A : Type} (o : outcome world A) (a : A) : Prop :=
  exists s', o = Returns a s'.

Definition exits {A : Type} (o : outcome world A) (status : int) : Prop :=
  exists s', o = Exits status s'.

(** The targets of a privilege drop, in the words of the interface: zero
    asks for the process's current real id, any other value for itself. *)
Definition target_gid (gid : gid_t) (w : world) : gid_t :=
  if (gid =? 0)%N then os_getgid w else gid.

Definition target_uid (uid : uid_t) (w : world) : uid_t :=
  if (uid =? 0)%N then os_getuid w else uid.

(** The identity of a process: real and effective user and group. *)
Definition identity (w : world) : (N * N) * (N * N) :=
  ((os_getuid w, os_geteuid w), (os_getgid w, os_getegid w)).

(** The identity queries a privilege drop starts with: a real id is asked
    for only when the argument is zero. *)
Definition queries (uid : uid_t) (gid : gid_t) (w : world) : list event :=
  (if (gid =? 0)%N then [Getgid (os_getgid w)] else [])
  ++ [Getegid (os_getegid w)]
  ++ (if (uid =? 0)%N then [Getuid (os_getuid w)] else [])
  ++ [Geteuid (os_geteuid w)].

(** An identity-setting call names the targets and nothing else. *)
Definition aims_at (tg tu : N) (e : event) : Prop :=
  match e with
  | Setgroups l _ => l = [tg]
  | Setregid r e _ => r = tg /\ e = tg
  | Setreuid r e _ => r = tu /\ e = tu
  | _ => True
  end.

(** The post-drop check of one id: the attempt to take the old effective
    id back answered -1, and the query right after it answered the
    target. *)
Definition checked_gid (target old : gid_t) (t : list event) : Prop :=
  exists t1 t2 g,
    t = t1 ++ Setegid old (-1) :: Getegid g :: t2 /\ g = target.

Definition checked_uid (target old : uid_t) (t : list event) : Prop :=
  exists t1 t2 u,
    t = t1 ++ Seteuid old (-1) :: Geteuid u :: t2 /\ u = target.

(** The paired check of a privilege drop, for one call: the call returns or
    ends the process with status 1, and it returns only with each id whose
    target differs from the old effective id checked. *)
Definition drop_is_verified (uid : uid_t) (gid : gid_t) (s : state world)
  : Prop :=
  let o := drop_root_privileges_by_id uid gid s in
  let t := events_since s o in
  let oldgid := os_getegid (os s) in
  let olduid := os_geteuid (os s) in
  (returns o tt \/ exits o 1) /\
  (returns o tt ->
   (target_gid gid (os s) <> oldgid ->
    checked_gid (target_gid gid (os s)) oldgid t) /\
   (target_uid uid (os s) <> olduid ->
    checked_uid (target_uid uid (os s)) olduid t)).

(** The values of an [int]. *)
Definition is_int (z : Z) : Prop := - 2 ^ 31 <= z < 2 ^ 31.

(** "CPU [cpu] is a member of the set": it is one of the CPUs a set can
    hold, and its bit is on. *)
Definition member (cpu : int) (set : cpu_set_t) : Prop :=
  0 <= cpu < CPU_SETSIZE /\ N.testbit set (Z.to_N cpu) = true.

(** "The affinity set containing exactly [cpu] and no other CPU". *)
Definition holds_exactly (set : cpu_set_t) (cpu : int) : Prop :=
  cpu_set_wf set /\ forall i : Z, member i set <-> i = cpu.

(** bind_cpu "behaves exactly like bind_context applied to the affinity
    set containing exactly [cpu]", with the same place for the previous
    affinity: there is such a set, and wherever an object apart from that
    place holds it, the two calls end the same way, with the same result,
    the same calls made, the same world and the same objects. *)
Definition bind_cpu_refines (cpu : int) (old_context : pointer) : Prop :=
  exists set,
    holds_exactly set cpu /\
    forall (s : state world) (set_ptr : pointer),
      load set_ptr (mem s) = set ->
      set_ptr <> old_context ->
      old_context = NULL \/ valid old_context (mem s) ->
      bind_cpu cpu old_context s = bind_context set_ptr old_context s.

(** The calls of util.c a host program can make, and a sequence of them run
    until the process ends. *)
Inductive operation : Type :=
| Enable_debug
| Is_debug_enabled
| Drop_capabilities
| Drop_root_privileges_by_id (uid : uid_t) (gid : gid_t)
| Bind_cpu (cpu : int) (old_context : pointer)
| Bind_context (new_context old_context : pointer)
| Is_cpu_offline (cpu : int).

Definition perform (op : operation) : M world unit :=
  match op with
  | Enable_debug => enable_debug
  | Is_debug_enabled => _ <- is_debug_enabled ;; ret tt
  | Drop_capabilities => drop_capabilities
  | Drop_root_privileges_by_id uid gid => drop_root_privileges_by_id uid gid
  | Bind_cpu cpu old => _ <- bind_cpu cpu old ;; ret tt
  | Bind_context new old => _ <- bind_context new old ;; ret tt
  | Is_cpu_offline cpu => _ <- is_cpu_offline cpu ;; ret tt
  end.

Fixpoint perform_all (ops : list operation) : M world unit :=
  match ops with
  | [] => ret tt
  | op :: ops' => perform op ;; perform_all ops'
  end.

Definition is_enable_debug (op : operation) : bool :=
  match op with Enable_debug => true | _ => false end.

End Vocabulary.

(** ** Vocabulary of the further properties *)

(** [t] ends with the events [l]. *)
Definition ends_with (t l : list event) : Prop :=
  exists t', t = t' ++ l.

(** The two messages of drop_root_privileges_by_id. *)
Definition group_message : string := "Changing group id of process failed".
Definition user_message : string := "Changing user id of process failed".

(** The last events of a privilege drop that ends the process: a change of
    the ids that answered -1, written with [err]; or a check that did not
    hold, written with [errx], the old effective id having been taken back
    or the id in force being another than the target. *)
Inductive fatal_end (tg oldgid tu olduid : N) : list event -> Prop :=
| setregid_failed :
    fatal_end tg oldgid tu olduid
      [Setregid tg tg (-1); Err 1 group_message]
| setreuid_failed :
    fatal_end tg oldgid tu olduid
      [Setreuid tu tu (-1); Err 1 user_message]
| gid_taken_back (rc : int) :
    rc <> -1 ->
    fatal_end tg oldgid tu olduid
      [Setegid oldgid rc; Errx 1 group_message]
| gid_not_target (g : N) :
    g <> tg ->
    fatal_end tg oldgid tu olduid
      [Setegid oldgid (-1); Getegid g; Errx 1 group_message]
| uid_taken_back (rc : int) :
    rc <> -1 ->
    fatal_end tg oldgid tu olduid
      [Seteuid olduid rc; Errx 1 user_message]
| uid_not_target (u : N) :
    u <> tu ->
    fatal_end tg oldgid tu olduid
      [Seteuid olduid (-1); Geteuid u; Errx 1 user_message].

(** The calls that change or probe what the process may do, numbered in
    the order the source has them; a trace keeps that order when the
    numbers of its events go up. *)
Definition step (e : event) : list nat :=
  match e with
  | Setgroups _ _ => [0%nat]
  | Setregid _ _ _ => [1%nat]
  | Setreuid _ _ _ => [2%nat]
  | Setegid _ _ => [3%nat]
  | Seteuid _ _ => [4%nat]
  | _ => []
  end.

Fixpoint increasing (l : list nat) : Prop :=
  match l with
  | a :: (b :: _) as l' => (a < b)%nat /\ increasing l'
  | _ => True
  end.

(** The line of [DEBUG] apart, which is the one [warnx] of the file. *)
Definition not_debug_line (e : event) : bool :=
  match e with Warnx _ _ => false | _ => true end.

Definition is_drop (op : operation) : bool :=
  match op with
  | Drop_capabilities | Drop_root_privileges_by_id _ _ => true
  | _ => false
  end.

(** An [err] or [errx] line with status 1. *)
Definition is_fatal_line (e : event) : Prop :=
  exists msg, e = Err 1 msg \/ e = Errx 1 msg.

Section MoreVocabulary.

Context {world : Type} {system : OS world}.

(** The same state with another value of the debug flag. *)
Definition with_debug (d : int) (s : state world) : state world :=
  mkState d (mem s) (os s) (trace s).

(** drop_root_privileges_by_id from its fifth line on, as a function of its
    four locals.  It serves the proofs only: the lemma
    [drop_root_privileges_by_id_body] shows that the function is this body
    run on the values of the locals, after the identity queries. *)
Definition drop_with (newgid oldgid : gid_t) (newuid olduid : uid_t)
  : M world unit :=
  if negb (olduid =? 0)%N && negb (oldgid =? 0)%N then
    DEBUG "Not changing UID because not running as root (uid=%d gid=%d)."
          [Z.of_N olduid; Z.of_N oldgid]
  else
    when (olduid =? 0)%N (_ <- setgroups [newgid] ;; ret tt) ;;
    when (negb (newgid =? oldgid)%N)
      (r <- setregid newgid newgid ;;
       when (r =? -1) (err 1 "Changing group id of process failed")) ;;
    when (negb (newuid =? olduid)%N)
      (r <- setreuid newuid newuid ;;
       when (r =? -1) (err 1 "Changing user id of process failed")) ;;
    c <- ret (negb (newgid =? oldgid)%N)
         &&& ((r <- setegid oldgid ;; ret (negb (r =? -1)))
              ||| (g <- getegid ;; ret (negb (g =? newgid)%N))) ;;
    when c (errx 1 "Changing group id of process failed") ;;
    c <- ret (negb (newuid =? olduid)%N)
         &&& ((r <- seteuid olduid ;; ret (negb (r =? -1)))
              ||| (u <- geteuid ;; ret (negb (u =? newuid)%N))) ;;
    when c (errx 1 "Changing user id of process failed").

End MoreVocabulary.

(** ** Properties *)

(** *** What a call leaves alone

    Facts of the form "no call of this shape touches that part of the
    state" are proved once for the monad's combinators and the primitive
    calls, and follow for the functions of util.c by their structure. *)

Section Frames.

Context {world : Type} {system : OS world}.

Definition keeps_flag {A : Type} (m : M world A) : Prop :=
  forall s, debug_enabled (final (m s)) = debug_enabled s.

Lemma keeps_flag_ret {A : Type} (a : A) : keeps_flag (ret a).
Proof. intros s; reflexivity. Qed.

Lemma keeps_flag_bind {A B : Type} (m : M world A) (k : A -> M world B) :
  keeps_flag m -> (forall a, keeps_flag (k a)) -> keeps_flag (bind m k).
Proof.
  intros Hm Hk s. unfold bind. specialize (Hm s).
  destruct (m s) as [a s' | n s']; simpl in *.
  - rewrite Hk. exact Hm.
  - exact Hm.
Qed.

Lemma keeps_flag_when (c : bool) (m : M world unit) :
  keeps_flag m -> keeps_flag (when c m).
Proof. destruct c; simpl; auto using keeps_flag_ret. Qed.

Lemma keeps_flag_if {A : Type} (c : bool) (m1 m2 : M world A) :
  keeps_flag m1 -> keeps_flag m2 -> keeps_flag (if c then m1 else m2).
Proof. destruct c; auto. Qed.

Lemma keeps_flag_and_then (a b : M world bool) :
  keeps_flag a -> keeps_flag b -> keeps_flag (and_then a b).
Proof.
  intros Ha Hb. apply keeps_flag_bind; [exact Ha|].
  intros [|]; auto using keeps_flag_ret.
Qed.

Lemma keeps_flag_or_else (a b : M world bool) :
  keeps_flag a -> keeps_flag b -> keeps_flag (or_else a b).
Proof.
  intros Ha Hb. apply keeps_flag_bind; [exact Ha|].
  intros [|]; auto using keeps_flag_ret.
Qed.

Lemma keeps_flag_observe {A : Type} (f : world -> A) (ev : A -> event) :
  keeps_flag (observe f ev).
Proof. intros s; reflexivity. Qed.

Lemma keeps_flag_syscall {A : Type} (f : world -> A * world)
      (ev : A -> event) :
  keeps_flag (syscall f ev).
Proof. intros s. unfold syscall. destruct (f (os s)); reflexivity. Qed.

Lemma keeps_flag_sched_getaffinity (mask : pointer) :
  keeps_flag (sched_getaffinity mask).
Proof.
  intros s. unfold sched_getaffinity.
  destruct (os_sched_getaffinity _ _) as [[rc set] w]; reflexivity.
Qed.

Lemma keeps_flag_sched_setaffinity (mask : pointer) :
  keeps_flag (sched_setaffinity mask).
Proof.
  intros s. unfold sched_setaffinity.
  destruct (os_sched_setaffinity _ _) as [rc w]; reflexivity.
Qed.

Lemma keeps_flag_warn msg args : keeps_flag (warn msg args).
Proof. intros s; reflexivity. Qed.

Lemma keeps_flag_warnx msg args : keeps_flag (warnx msg args).
Proof. intros s; reflexivity. Qed.

Lemma keeps_flag_err {A : Type} status msg :
  keeps_flag (err (A := A) status msg).
Proof. intros s; reflexivity. Qed.

Lemma keeps_flag_errx {A : Type} status msg :
  keeps_flag (errx (A := A) status msg).
Proof. intros s; reflexivity. Qed.

Lemma keeps_flag_is_debug_enabled : keeps_flag is_debug_enabled.
Proof. intros s; reflexivity. Qed.

Lemma keeps_flag_CPU_ZERO set : keeps_flag (CPU_ZERO set).
Proof. intros s; reflexivity. Qed.

Lemma keeps_flag_CPU_SET cpu set : keeps_flag (CPU_SET cpu set).
Proof. intros s; reflexivity. Qed.

Lemma keeps_flag_CPU_ISSET cpu set : keeps_flag (CPU_ISSET cpu set).
Proof. intros s; reflexivity. Qed.

Lemma keeps_flag_local {A : Type} (body : pointer -> M world A) :
  (forall x, keeps_flag (body x)) -> keeps_flag (local_cpu_set body).
Proof.
  intros Hb s. unfold local_cpu_set.
  match goal with |- context [body ?x ?s1] =>
    specialize (Hb x s1); destruct (body x s1) end; exact Hb.
Qed.

End Frames.

Create HintDb frames discriminated.

#[export] Hint Resolve
  keeps_flag_ret keeps_flag_bind keeps_flag_when keeps_flag_if
  keeps_flag_and_then keeps_flag_or_else keeps_flag_observe
  keeps_flag_syscall keeps_flag_sched_getaffinity
  keeps_flag_sched_setaffinity keeps_flag_warn keeps_flag_warnx
  keeps_flag_err keeps_flag_errx keeps_flag_is_debug_enabled
  keeps_flag_CPU_ZERO keeps_flag_CPU_SET keeps_flag_CPU_ISSET
  keeps_flag_local : frames.

#[export] Hint Unfold
  getgid getegid getuid geteuid setgroups setregid setreuid setegid seteuid
  cap_get_proc cap_clear cap_set_proc cap_free DEBUG : frames.

Ltac frames :=
  repeat first
    [ lazymatch goal with |- forall _, _ => intro end
    | lazymatch goal with
      | |- keeps_flag (bind _ _) => apply keeps_flag_bind
      | |- keeps_flag (if _ then _ else _) => apply keeps_flag_if
      | |- keeps_flag (when _ _) => apply keeps_flag_when
      | |- keeps_flag (and_then _ _) => apply keeps_flag_and_then
      | |- keeps_flag (or_else _ _) => apply keeps_flag_or_else
      | |- keeps_flag (local_cpu_set _) => apply keeps_flag_local
      end
    | solve [ auto with frames ]
    | progress autounfold with frames ].

Section DebugFlag.

Context {world : Type} {system : OS world}.

Lemma keeps_flag_drop_capabilities : keeps_flag drop_capabilities.
Proof. unfold drop_capabilities. frames. Qed.

Lemma keeps_flag_drop_root_privileges_by_id uid gid :
  keeps_flag (drop_root_privileges_by_id uid gid).
Proof. unfold drop_root_privileges_by_id. frames. Qed.

Lemma keeps_flag_bind_context new_context old_context :
  keeps_flag (bind_context new_context old_context).
Proof. unfold bind_context. cbv zeta. frames. Qed.

Lemma keeps_flag_bind_cpu cpu old_context :
  keeps_flag (bind_cpu cpu old_context).
Proof.
  unfold bind_cpu. frames. apply keeps_flag_bind_context.
Qed.

Lemma keeps_flag_is_cpu_offline cpu : keeps_flag (is_cpu_offline cpu).
Proof. unfold is_cpu_offline. frames. Qed.

(** [enable_debug] sets the flag, and every other call leaves it as it
    is, whether the call returns or ends the process. *)
Lemma perform_flag (op : operation) (s : state world) :
  debug_enabled (final (perform op s)) =
  if is_enable_debug op then 1 else debug_enabled s.
Proof.
  destruct op; simpl; try reflexivity.
  - apply keeps_flag_drop_capabilities.
  - apply keeps_flag_drop_root_privileges_by_id.
  - revert s. change (keeps_flag (_ <- bind_cpu cpu old_context ;; ret tt)).
    frames. apply keeps_flag_bind_cpu.
  - revert s.
    change (keeps_flag (_ <- bind_context new_context old_context ;; ret tt)).
    frames. apply keeps_flag_bind_context.
  - revert s. change (keeps_flag (_ <- is_cpu_offline cpu ;; ret tt)).
    frames. apply keeps_flag_is_cpu_offline.
Qed.

Lemma final_bind {A B : Type} (m : M world A) (k : A -> M world B) s :
  final (bind m k s) =
  match m s with
  | Returns a s' => final (k a s')
  | Exits _ s' => s'
  end.
Proof. unfold bind. destruct (m s); reflexivity. Qed.

Lemma perform_all_without_enable (ops : list operation) (s : state world) :
  existsb is_enable_debug ops = false ->
  debug_enabled (final (perform_all ops s)) = debug_enabled s.
Proof.
  revert s. induction ops as [|op ops IH]; intros s H; simpl in *.
  - reflexivity.
  - apply orb_false_iff in H. destruct H as [Hop Hops].
    rewrite final_bind. pose proof (perform_flag op s) as Hf.
    rewrite Hop in Hf.
    destruct (perform op s) as [[] s' | n s']; simpl in *.
    + rewrite IH by assumption. exact Hf.
    + exact Hf.
Qed.

Lemma perform_all_once_enabled (ops : list operation) (s : state world) :
  debug_enabled s = 1 ->
  debug_enabled (final (perform_all ops s)) = 1.
Proof.
  revert s. induction ops as [|op ops IH]; intros s H; simpl in *.
  - exact H.
  - rewrite final_bind. pose proof (perform_flag op s) as Hf.
    assert (Hs : debug_enabled (final (perform op s)) = 1)
      by (rewrite Hf; destruct (is_enable_debug op); auto).
    destruct (perform op s) as [[] s' | n s']; simpl in *; auto.
Qed.

(** C9.  The debug flag starts false; calls of the module other than
    enable_debug, made before the first enable_debug, leave
    is_debug_enabled answering false; after enable_debug it answers true,
    and still does after any further calls of the module, so nothing
    resets it; a second enable_debug changes nothing. *)
Theorem debug_flag_lifecycle (w : world) (m : memory)
        (before after : list operation) :
  existsb is_enable_debug before = false ->
  let s0 := start w m in
  let s1 := final (perform_all before s0) in
  let s2 := final (enable_debug s1) in
  let s3 := final (perform_all after s2) in
  is_debug_enabled s0 = Returns 0 s0 /\
  is_debug_enabled s1 = Returns 0 s1 /\
  is_debug_enabled s2 = Returns 1 s2 /\
  is_debug_enabled s3 = Returns 1 s3 /\
  enable_debug s2 = Returns tt s2 /\
  enable_debug s3 = Returns tt s3.
Proof.
  intros Hbefore s0 s1 s2 s3. unfold is_debug_enabled.
  assert (H1 : debug_enabled s1 = 0)
    by (unfold s1; rewrite perform_all_without_enable; auto).
  assert (H3 : debug_enabled s3 = 1)
    by (unfold s3; apply perform_all_once_enabled; reflexivity).
  rewrite H1, H3. repeat split.
  unfold enable_debug. rewrite <- H3. destruct s3; reflexivity.
Qed.

End DebugFlag.

(** *** Reading a run *)

Lemma skipn_length_app {A : Type} (l t : list A) :
  skipn (length l) (l ++ t) = t.
Proof. induction l; simpl; auto. Qed.

Section Runs.

Context {world : Type} {system : OS world}.

Lemma events_since_app {A : Type} (s : state world) (o : outcome world A)
      (t : list event) :
  trace (final o) = trace s ++ t -> events_since s o = t.
Proof. intros H. unfold events_since. rewrite H. apply skipn_length_app. Qed.

End Runs.

(** Unfolds the monad and the calls, so that a run shows as nested cases
    on what the system answers. *)
Ltac unfold_run :=
  cbv beta iota zeta delta
    [bind ret when and_then or_else observe syscall log
     getgid getegid getuid geteuid setgroups setregid setreuid setegid
     seteuid cap_get_proc cap_clear cap_set_proc cap_free
     sched_getaffinity sched_setaffinity warn warnx err errx
     CPU_ZERO CPU_SET CPU_ISSET local_cpu_set DEBUG is_debug_enabled];
  cbn [final debug_enabled mem os trace store load negb andb orb].

Ltac reduce_run :=
  cbn [final debug_enabled mem os trace store load negb andb orb].

(** Closes [trace s ++ e1 ++ ... = trace s ++ t]. *)
Ltac trace_eq :=
  simpl; repeat rewrite <- app_assoc; simpl; reflexivity.

(** *** CPU sets and their memory *)

Lemma size_t_of_int_in_range (cpu : Z) :
  is_int cpu ->
  (size_t_of_int cpu <? CPU_SETSIZE) = true ->
  0 <= cpu < CPU_SETSIZE /\ size_t_of_int cpu = cpu.
Proof.
  unfold is_int, size_t_of_int, CPU_SETSIZE. intros Hint H.
  apply Z.ltb_lt in H.
  destruct (Z.neg_nonneg_cases cpu) as [Hneg | Hpos].
  - exfalso. rewrite <- (Z.mod_add cpu 1 (2 ^ 64)) in H by lia.
    rewrite Z.mod_small in H by lia. lia.
  - rewrite Z.mod_small in *; lia.
Qed.

Lemma size_t_of_int_small (cpu : Z) :
  0 <= cpu < CPU_SETSIZE -> size_t_of_int cpu = cpu.
Proof.
  unfold size_t_of_int, CPU_SETSIZE. intros H. apply Z.mod_small. lia.
Qed.

Lemma cpu_isset_member (cpu : Z) (set : N) :
  is_int cpu -> cpu_isset cpu set = true <-> member cpu set.
Proof.
  intros Hint. unfold cpu_isset, member. cbv zeta. split.
  - destruct (size_t_of_int cpu <? CPU_SETSIZE) eqn:E; [|discriminate].
    destruct (size_t_of_int_in_range cpu Hint E) as [Hr ->]. auto.
  - intros [Hr Hb]. rewrite (size_t_of_int_small cpu Hr).
    replace (cpu <? CPU_SETSIZE) with true by (symmetry; apply Z.ltb_lt; lia).
    exact Hb.
Qed.

Lemma store_at_top (m : memory) (v x : N) :
  store_at (length m) v (m ++ [x]) = m ++ [v].
Proof. induction m as [|y m IH]; simpl; [reflexivity | now rewrite IH]. Qed.

Lemma store_at_length (a : addr) (v : N) (m : memory) :
  length (store_at a v m) = length m.
Proof.
  revert a. induction m as [|y m IH]; intros [|a]; simpl; auto.
Qed.

Lemma store_at_below (a : addr) (v x : N) (m : memory) :
  (a < length m)%nat -> store_at a v (m ++ [x]) = store_at a v m ++ [x].
Proof.
  revert a. induction m as [|y m IH]; intros [|a] H; simpl in *;
    try lia; auto.
  rewrite IH by lia. reflexivity.
Qed.

Lemma nth_top_after_store (a : addr) (v x d : N) (m : memory) :
  nth (length m) (store_at a v m ++ [x]) d = x.
Proof.
  rewrite <- (store_at_length a v m). apply nth_middle.
Qed.

Lemma nth_store_at_same (a : addr) (v d : N) (m : memory) :
  (a < length m)%nat -> nth a (store_at a v m) d = v.
Proof.
  revert a. induction m as [|y m IH]; intros [|a] H; simpl in *;
    try lia; auto.
  apply IH. lia.
Qed.

Lemma nth_store_at_other (a b : addr) (v d : N) (m : memory) :
  a <> b -> nth a (store_at b v m) d = nth a m d.
Proof.
  revert a b. induction m as [|y m IH]; intros [|a] [|b] H; simpl;
    try reflexivity; try congruence.
  apply IH. congruence.
Qed.

Lemma cpu_set_wf_high_bits (set : N) (n : N) :
  cpu_set_wf set -> (Z.to_N CPU_SETSIZE <= n)%N -> N.testbit set n = false.
Proof.
  unfold cpu_set_wf. intros Hwf Hn.
  destruct (N.eq_dec set 0) as [->|Hnz]; [apply N.bits_0|].
  apply N.bits_above_log2.
  apply N.lt_le_trans with (Z.to_N CPU_SETSIZE); [|exact Hn].
  apply N.log2_lt_pow2; [lia | exact Hwf].
Qed.

Lemma cpu_set_in_range (cpu : Z) (set : N) :
  0 <= cpu < CPU_SETSIZE -> cpu_set cpu set = N.setbit set (Z.to_N cpu).
Proof.
  intros H. unfold cpu_set. cbv zeta. rewrite (size_t_of_int_small cpu H).
  replace (cpu <? CPU_SETSIZE) with true by (symmetry; apply Z.ltb_lt; lia).
  reflexivity.
Qed.

(** In range, [CPU_ZERO] then [CPU_SET] build the one set that holds
    exactly that CPU. *)
Lemma holds_exactly_unique (set : N) (cpu : Z) :
  0 <= cpu < CPU_SETSIZE ->
  holds_exactly set cpu -> set = cpu_set cpu cpu_zero.
Proof.
  intros Hr [Hwf Hex]. rewrite (cpu_set_in_range cpu cpu_zero Hr).
  apply N.bits_inj. intros n. unfold cpu_zero.
  rewrite N.setbit_eqb, N.bits_0, orb_false_r.
  destruct (N.lt_ge_cases n (Z.to_N CPU_SETSIZE)) as [Hlt | Hge].
  - destruct (N.eqb_spec (Z.to_N cpu) n) as [<-|Hne].
    + apply (proj2 (Hex cpu) eq_refl).
    + destruct (N.testbit set n) eqn:E; [|reflexivity].
      exfalso. apply Hne.
      assert (Hm : member (Z.of_N n) set).
      { split; [unfold CPU_SETSIZE in *; lia|]. now rewrite N2Z.id. }
      apply Hex in Hm. rewrite <- Hm. now rewrite N2Z.id.
  - rewrite (cpu_set_wf_high_bits set n Hwf Hge).
    symmetry. apply N.eqb_neq. unfold CPU_SETSIZE in *. lia.
Qed.

Lemma cpu_set_holds_exactly (cpu : Z) :
  0 <= cpu < CPU_SETSIZE -> holds_exactly (cpu_set cpu cpu_zero) cpu.
Proof.
  intros Hr. rewrite (cpu_set_in_range cpu cpu_zero Hr). unfold cpu_zero.
  split.
  - unfold cpu_set_wf.
    destruct (N.eq_dec (N.setbit 0 (Z.to_N cpu)) 0) as [->|Hnz].
    + apply N.neq_0_lt_0, N.pow_nonzero. discriminate.
    + apply N.log2_lt_pow2; [lia|].
      assert (Hs : N.setbit 0 (Z.to_N cpu) = (2 ^ Z.to_N cpu)%N).
      { rewrite N.setbit_spec'. apply N.lor_0_l. }
      rewrite Hs, N.log2_pow2 by lia. unfold CPU_SETSIZE in *. lia.
  - intros i. unfold member. rewrite N.setbit_eqb, N.bits_0, orb_false_r.
    rewrite N.eqb_eq. unfold CPU_SETSIZE in *. split.
    + intros [Hi E]. lia.
    + intros ->. split; [lia | reflexivity].
Qed.

(** Case analysis on everything a run depends on: the comparisons the
    code makes and the answers of the system. *)
Ltac run_case :=
  match goal with
  | |- context [N.eqb ?a ?b] => destruct (N.eqb_spec a b)
  | |- context [N.ltb ?a ?b] => destruct (N.ltb_spec a b)
  | |- context [Z.eqb ?a ?b] => destruct (Z.eqb_spec a b)
  | |- context [match ?c with (_, _) => _ end] => destruct c eqn:?
  end.

Ltac run_cases :=
  unfold_run;
  repeat (run_case; try (exfalso; (lia || congruence)); unfold_run).

(** The same on a run named [o] in the context: the cases are made on one
    copy of the run, and [o] is its result in each. *)
Ltac cases_of_run f :=
  match goal with
  | o := ?run |- _ =>
      let Ho := fresh "Ho" in
      assert (Ho : run = o) by reflexivity;
      clearbody o; revert Ho; unfold f; run_cases; intros <-
  end.

(** Rewrites [events_since s o] to the events [o] shows after [s]'s. *)
Ltac since :=
  match goal with
  | |- context [events_since ?s ?o] =>
      let H := fresh in
      eassert (H : events_since s o = _)
        by (apply events_since_app; trace_eq);
      rewrite H; clear H
  end.

(** Refutes [Hin : e = x \/ ... \/ False] when no event is of [x]'s
    kind. *)
Ltac no_such_event Hin :=
  repeat (destruct Hin as [Hin | Hin]; [discriminate Hin|]); exact Hin.

Section Checks.

Context {world : Type} {system : OS world}.

Lemma checked_gid_here (target old g : N) (t : list event) :
  g = target -> checked_gid target old (Setegid old (-1) :: Getegid g :: t).
Proof. intros H. exists [], t, g. split; [reflexivity | exact H]. Qed.

Lemma checked_gid_later (target old : N) (e : event) (t : list event) :
  checked_gid target old t -> checked_gid target old (e :: t).
Proof.
  intros (t1 & t2 & g & -> & H). exists (e :: t1), t2, g.
  split; [reflexivity | exact H].
Qed.

Lemma checked_uid_here (target old u : N) (t : list event) :
  u = target -> checked_uid target old (Seteuid old (-1) :: Geteuid u :: t).
Proof. intros H. exists [], t, u. split; [reflexivity | exact H]. Qed.

Lemma checked_uid_later (target old : N) (e : event) (t : list event) :
  checked_uid target old t -> checked_uid target old (e :: t).
Proof.
  intros (t1 & t2 & u & -> & H). exists (e :: t1), t2, u.
  split; [reflexivity | exact H].
Qed.

End Checks.

(** Finds the two events of a check in a trace that is written out. *)
Ltac find_check :=
  solve [ repeat first
            [ apply checked_gid_here; congruence
            | apply checked_uid_here; congruence
            | apply checked_gid_later
            | apply checked_uid_later ] ].

Section Capabilities.

Context {world : Type} {system : OS world}.

(** C6.  drop_capabilities makes four calls to the system, in this order
    and each in the world the one before left: cap_get_proc retrieves the
    capability state, cap_clear clears the state behind the handle it
    answered, cap_set_proc commits that state to the process, cap_free
    releases the handle.  The first of these calls to fail (NULL from the
    retrieval, a non-zero result from the others) is the last call made:
    the process ends at once with status 1 and a line on standard error
    naming the call, in the world that call left.  When all succeed the
    function returns in the world cap_free left and has written nothing.
    The handle, the answers and the worlds are the system's own; the
    [cpu_set_t] objects and the debug flag are left alone. *)
Theorem drop_capabilities_outcome (s : state world) :
  let o := drop_capabilities s in
  let t := events_since s o in
  let retrieved := os_cap_get_proc (os s) in
  let c := fst retrieved in
  let cleared := os_cap_clear c (snd retrieved) in
  let committed := os_cap_set_proc c (snd cleared) in
  let released := os_cap_free c (snd committed) in
  mem (final o) = mem s /\ debug_enabled (final o) = debug_enabled s /\
  ((is_null c = false /\
    fst cleared = 0 /\ fst committed = 0 /\ fst released = 0 /\
    returns o tt /\ os (final o) = snd released /\
    t = [Cap_get_proc c; Cap_clear c 0; Cap_set_proc c 0; Cap_free c 0])
   \/ (c = NULL /\
       exits o 1 /\ os (final o) = snd retrieved /\
       t = [Cap_get_proc NULL;
            Err 1 "Getting capabilities of process failed"])
   \/ (is_null c = false /\
       fst cleared <> 0 /\
       exits o 1 /\ os (final o) = snd cleared /\
       t = [Cap_get_proc c; Cap_clear c (fst cleared);
            Err 1 "cap_clear failed"])
   \/ (is_null c = false /\
       fst cleared = 0 /\ fst committed <> 0 /\
       exits o 1 /\ os (final o) = snd committed /\
       t = [Cap_get_proc c; Cap_clear c 0;
            Cap_set_proc c (fst committed);
            Err 1 "Dropping capabilities failed"])
   \/ (is_null c = false /\
       fst cleared = 0 /\ fst committed = 0 /\ fst released <> 0 /\
       exits o 1 /\ os (final o) = snd released /\
       t = [Cap_get_proc c; Cap_clear c 0; Cap_set_proc c 0;
            Cap_free c (fst released);
            Err 1 "cap_free failed"])).
Proof.
  cbv zeta. unfold drop_capabilities, returns, exits.
  unfold_run.
  destruct (os_cap_get_proc (os s)) as [c w1]. cbn [fst snd].
  destruct c as [|a]; reduce_run; simpl.
  { repeat split. right; left. repeat split; eauto.
    apply events_since_app. trace_eq. }
  destruct (os_cap_clear (Ptr a) w1) as [r1 w2]. cbn [fst snd].
  destruct (Z.eqb_spec r1 0) as [->|H1]; simpl.
  2:{ repeat split. do 2 right; left.
      repeat split; eauto. apply events_since_app. trace_eq. }
  destruct (os_cap_set_proc (Ptr a) w2) as [r2 w3]. cbn [fst snd].
  destruct (Z.eqb_spec r2 0) as [->|H2]; simpl.
  2:{ repeat split. do 3 right; left.
      repeat split; eauto. apply events_since_app. trace_eq. }
  destruct (os_cap_free (Ptr a) w3) as [r3 w4]. cbn [fst snd].
  destruct (Z.eqb_spec r3 0) as [->|H3]; simpl.
  2:{ repeat split. do 4 right.
      repeat split; eauto. apply events_since_app. trace_eq. }
  repeat split. left.
  repeat split; eauto. apply events_since_app. trace_eq.
Qed.

End Capabilities.

Section Privileges.

Context {world : Type} {system : OS world}.

(** C5.  In a process whose effective uid and effective gid are both
    non-zero, drop_root_privileges_by_id returns, having made no call but
    the identity queries (and written the debug line when the flag is
    set): the world, and with it every real and effective id and the
    supplementary group list, is the one it started in. *)
Theorem drop_root_privileges_not_root (uid : uid_t) (gid : gid_t)
        (s : state world) :
  os_geteuid (os s) <> 0%N ->
  os_getegid (os s) <> 0%N ->
  let o := drop_root_privileges_by_id uid gid s in
  returns o tt /\
  os (final o) = os s /\
  mem (final o) = mem s /\
  debug_enabled (final o) = debug_enabled s /\
  events_since s o =
    queries uid gid (os s)
    ++ (if debug_enabled s =? 0 then []
        else [Warnx
                "Not changing UID because not running as root (uid=%d gid=%d)."
                [Z.of_N (os_geteuid (os s)); Z.of_N (os_getegid (os s))]]).
Proof.
  intros Heuid Hegid o. unfold returns, queries.
  cases_of_run (@drop_root_privileges_by_id).
  all: run_cases; repeat split; eauto; since; reflexivity.
Qed.

(** C10.  In a process of effective uid 0 whose targets are the effective
    ids it already has, the function asks for the identity, reduces the
    supplementary groups to the target group and returns: no call changes
    a real or effective id and none of the check is made.  As setgroups
    changes no id, the process has the identity it started with. *)
Theorem drop_root_privileges_nothing_to_change (uid : uid_t) (gid : gid_t)
        (s : state world) :
  os_geteuid (os s) = 0%N ->
  target_gid gid (os s) = os_getegid (os s) ->
  target_uid uid (os s) = os_geteuid (os s) ->
  (forall l w, identity (snd (os_setgroups l w)) = identity w) ->
  let o := drop_root_privileges_by_id uid gid s in
  returns o tt /\
  (exists rc,
     events_since s o =
     queries uid gid (os s) ++ [Setgroups [target_gid gid (os s)] rc]) /\
  os (final o) = snd (os_setgroups [target_gid gid (os s)] (os s)) /\
  identity (os (final o)) = identity (os s).
Proof.
  intros Heuid Hgid Huid Hgroups o.
  rewrite <- (Hgroups [target_gid gid (os s)] (os s)).
  revert Hgid Huid. unfold returns, queries, target_gid, target_uid.
  cases_of_run (@drop_root_privileges_by_id).
  all: run_cases; intros Hgid Huid; try (exfalso; (lia || congruence)).
  all: cbn [snd]; repeat split; eauto; eexists; since; reflexivity.
Qed.

(** C4.  Every identity-setting call the function makes names the targets
    of the interface: the group list is reduced to the target group,
    setregid and setreuid get the target for both ids, where the target is
    the real id when the argument is zero and the argument otherwise.  The
    real id is asked for exactly when the argument is zero.  The calls are
    made: setgroups in a process of effective uid 0, setregid past the
    not-root return when the target differs from the effective gid, and
    setreuid likewise unless the process has ended before. *)
Theorem drop_root_privileges_targets (uid : uid_t) (gid : gid_t)
        (s : state world) :
  let o := drop_root_privileges_by_id uid gid s in
  let t := events_since s o in
  let tg := target_gid gid (os s) in
  let tu := target_uid uid (os s) in
  let past_return := os_geteuid (os s) = 0%N \/ os_getegid (os s) = 0%N in
  Forall (aims_at tg tu) t /\
  ((exists r, In (Getgid r) t) <-> gid = 0%N) /\
  ((exists r, In (Getuid r) t) <-> uid = 0%N) /\
  (os_geteuid (os s) = 0%N -> exists rc, In (Setgroups [tg] rc) t) /\
  (past_return -> tg <> os_getegid (os s) ->
   exists rc, In (Setregid tg tg rc) t) /\
  (past_return -> tu <> os_geteuid (os s) ->
   (exists rc, In (Setreuid tu tu rc) t) \/ exits o 1).
Proof.
  intros o t tg tu past_return. subst t tg tu past_return.
  unfold exits, target_gid, target_uid.
  cases_of_run (@drop_root_privileges_by_id).
  all: since; run_cases; cbn [In aims_at].
  all: split; [repeat constructor|].
  all: split;
    [split;
     [intros [r Hin]; first [assumption | exfalso; no_such_event Hin]
     |intros Hz; first [exfalso; congruence | solve [eexists; eauto 20]]]|].
  all: split;
    [split;
     [intros [r Hin]; first [assumption | exfalso; no_such_event Hin]
     |intros Hz; first [exfalso; congruence | solve [eexists; eauto 20]]]|].
  all: split;
    [intros Hz; first [exfalso; congruence | solve [eexists; eauto 20]]|].
  all: split; intros Hp Hne;
    first
      [ exfalso; congruence
      | exfalso; destruct Hp; congruence
      | solve [eexists; eauto 20]
      | solve [left; eexists; eauto 20]
      | solve [right; eauto] ].
Qed.

(** C1, past the not-root return.  In a process of effective uid 0 or
    effective gid 0 the function returns or ends the process with status
    1, and it returns only if, for each id whose target differs from the
    old effective id, the attempt to set the old effective id back answered
    -1 and the effective id then in force was the target. *)
Theorem drop_root_privileges_verified (uid : uid_t) (gid : gid_t)
        (s : state world) :
  os_geteuid (os s) = 0%N \/ os_getegid (os s) = 0%N ->
  drop_is_verified uid gid s.
Proof.
  intros Hroot. cbv beta delta [drop_is_verified].
  intros o t oldgid olduid. subst t oldgid olduid.
  unfold returns, exits, target_gid, target_uid.
  cases_of_run (@drop_root_privileges_by_id).
  all: run_cases; try (exfalso; intuition (lia || congruence)).
  all: since; split; [eauto|].
  all: try (intros [s' Hs']; discriminate).
  all: intros _; split; intros Hne; try (exfalso; (lia || congruence)).
  all: subst; find_check.
Qed.

(** The two calls that change the ids are checked: when setregid or
    setreuid answers -1 the process ends with status 1 and the line of
    [err] naming the change.  The result of setgroups, the third call that
    changes what the process may do, is not looked at. *)
Lemma identity_change_failure_is_fatal (uid : uid_t) (gid : gid_t)
      (s : state world) :
  let o := drop_root_privileges_by_id uid gid s in
  let t := events_since s o in
  (forall r e, In (Setregid r e (-1)) t ->
     exits o 1 /\ In (Err 1 "Changing group id of process failed") t) /\
  (forall r e, In (Setreuid r e (-1)) t ->
     exits o 1 /\ In (Err 1 "Changing user id of process failed") t).
Proof.
  intros o t. subst t. unfold exits.
  cases_of_run (@drop_root_privileges_by_id).
  all: since; cbn [In].
  all: split; intros r e' Hin;
    first
      [ split; [solve [eauto] | solve [auto 20]]
      | exfalso;
        repeat (destruct Hin as [Hin | Hin];
                [first [discriminate Hin | congruence]|]);
        exact Hin ].
Qed.

End Privileges.

Section Affinity.

Context {world : Type} {system : OS world}.

(** C3.  is_cpu_offline hands the system an empty set to fill.  When that
    call answers -1 the result is -1; otherwise the result is 1 exactly
    when [cpu] is not a member of the mask the system reported, and 0
    exactly when it is.  The call always returns, and leaves the caller's
    objects as they were. *)
Theorem is_cpu_offline_result (cpu : int) (s : state world) :
  is_int cpu ->
  let answer := os_sched_getaffinity cpu_zero (os s) in
  let rc := fst (fst answer) in
  let mask := snd (fst answer) in
  exists v,
    returns (is_cpu_offline cpu s) v /\
    mem (final (is_cpu_offline cpu s)) = mem s /\
    (rc = -1 -> v = -1) /\
    (rc <> -1 ->
     (v = 1 <-> ~ member cpu mask) /\ (v = 0 <-> member cpu mask)).
Proof.
  intros Hint answer rc mask. subst rc mask answer.
  unfold is_cpu_offline, returns. unfold_run.
  rewrite store_at_top, nth_middle.
  destruct (os_sched_getaffinity cpu_zero (os s)) as [[rc mask] w].
  cbn [fst snd].
  destruct (Z.eqb_spec rc (-1)) as [->|Hrc]; reduce_run.
  - exists (-1). rewrite store_at_top, removelast_last.
    repeat split; eauto; intros; congruence.
  - rewrite store_at_top, nth_middle.
    pose proof (cpu_isset_member cpu mask Hint) as Hm.
    destruct (cpu_isset cpu mask) eqn:E; cbn [negb]; reduce_run;
      rewrite removelast_last.
    + exists 0. assert (Hin : member cpu mask) by (apply Hm; reflexivity).
      split; [eauto|]. split; [reflexivity|]. split; [congruence|].
      intros _. split; split; intros; (congruence || tauto).
    + exists 1. assert (Hout : ~ member cpu mask)
        by (intros Hc; apply Hm in Hc; discriminate).
      split; [eauto|]. split; [reflexivity|]. split; [congruence|].
      intros _. split; split; intros; (congruence || tauto).
Qed.


(** With [cpu] below [CPU_SETSIZE], bind_cpu's local object holds exactly
    [cpu], and the call does what bind_context does on any other object
    that holds it. *)
Lemma bind_cpu_as_bind_context (cpu : int) (set_ptr old_context : pointer)
      (s : state world) :
  0 <= cpu < CPU_SETSIZE ->
  holds_exactly (load set_ptr (mem s)) cpu ->
  set_ptr <> old_context ->
  old_context = NULL \/ valid old_context (mem s) ->
  bind_cpu cpu old_context s = bind_context set_ptr old_context s.
Proof.
  intros Hr Hex Hne Hold.
  apply (holds_exactly_unique _ _ Hr) in Hex.
  unfold bind_cpu, bind_context.
  destruct old_context as [|q]; cbn [is_null negb]; unfold_run.
  - repeat (rewrite store_at_top || rewrite nth_middle). rewrite <- Hex.
    destruct (os_sched_setaffinity (load set_ptr (mem s)) (os s)) as [rc w].
    destruct (rc =? -1); reduce_run; rewrite removelast_last;
      try destruct s; reflexivity.
  - destruct Hold as [Hold | Hq]; [discriminate|]. cbn [valid] in Hq.
    repeat (rewrite store_at_top || rewrite nth_middle).
    rewrite app_nth1 by exact Hq.
    destruct (os_sched_getaffinity (nth q (mem s) cpu_zero) (os s))
      as [[rc_read previous] w1].
    rewrite store_at_below by exact Hq.
    destruct (rc_read =? -1); unfold_run.
    + rewrite removelast_last. reflexivity.
    + rewrite nth_top_after_store.
      assert (Hsame : load set_ptr (store_at q previous (mem s))
                      = load set_ptr (mem s)).
      { destruct set_ptr as [|a]; [reflexivity|]. cbn [load].
        apply nth_store_at_other. congruence. }
      rewrite Hsame, <- Hex.
      destruct (os_sched_setaffinity (load set_ptr (mem s)) w1) as [rc w2].
      destruct (rc =? -1); reduce_run; rewrite removelast_last; reflexivity.
Qed.

(** C8, for the CPUs a set can hold.  For every [cpu] from 0 to
    [CPU_SETSIZE] - 1 and every place for the previous affinity, bind_cpu
    behaves exactly like bind_context applied to the set containing
    exactly [cpu]: same result, same calls, same world, same objects. *)
Theorem bind_cpu_refines_bind_context (cpu : int) (old_context : pointer) :
  0 <= cpu < CPU_SETSIZE -> bind_cpu_refines cpu old_context.
Proof.
  intros Hr. exists (cpu_set cpu cpu_zero).
  split; [apply cpu_set_holds_exactly; exact Hr|].
  intros s set_ptr Hset Hne Hold.
  apply bind_cpu_as_bind_context; try assumption.
  rewrite Hset. apply cpu_set_holds_exactly. exact Hr.
Qed.

End Affinity.

(** ** Runs on the Linux process *)

Lemma in_middle {A : Type} (t1 t2 : list A) (x : A) : In x (t1 ++ x :: t2).
Proof. apply in_or_app. right. left. reflexivity. Qed.

Lemma linux_setgroups_keeps_identity (l : list N) (w : Linux.process) :
  identity (snd (os_setgroups l w)) = identity w.
Proof.
  unfold identity. cbn. unfold Linux.setgroups.
  destruct (Linux.cap_setgid w); reflexivity.
Qed.

(** root dropping to user and group 1000: every call succeeds and both
    checks are made. *)
Example root_drops_to_user :
  let s := start Linux.root [] in
  let o := drop_root_privileges_by_id 1000 1000 s in
  returns o tt /\
  events_since s o =
    [Getegid 0; Geteuid 0; Setgroups [1000%N] 0; Setregid 1000 1000 0;
     Setreuid 1000 1000 0; Setegid 0 (-1); Getegid 1000; Seteuid 0 (-1);
     Geteuid 1000] /\
  identity (os (final o)) = ((1000, 1000), (1000, 1000))%N /\
  Linux.groups (os (final o)) = [1000%N].
Proof. cbv zeta. split; [eexists|]; repeat split; reflexivity. Qed.

(** C1, as stated, fails before the not-root return: a user's
    set-group-id program asks for its real ids; the target group 1000
    differs from the effective group 2000, and the function returns after
    the identity queries, with no attempt on the old effective gid and the
    effective gid still 2000. *)
Lemma drop_unverified_when_not_root :
  let s := start Linux.setgid_program [] in
  let o := drop_root_privileges_by_id 0 0 s in
  ~ drop_is_verified 0 0 s /\
  target_gid 0 (os s) = 1000%N /\ os_getegid (os s) = 2000%N /\
  returns o tt /\
  events_since s o =
    [Getgid 1000; Getegid 2000; Getuid 1000; Geteuid 1000] /\
  os_getegid (os (final o)) = 2000%N.
Proof.
  cbv zeta. split.
  - unfold drop_is_verified. cbv zeta. intros [_ H].
    destruct H as [Hgid _]; [eexists; reflexivity|].
    destruct Hgid as (t1 & t2 & g & Ht & _); [discriminate|].
    pose proof (in_middle t1 (Getegid g :: t2) (Setegid 2000 (-1))) as Hin.
    change (os_getegid (os (start Linux.setgid_program [])))
      with 2000%N in Ht.
    rewrite <- Ht in Hin. vm_compute in Hin. no_such_event Hin.
  - repeat split; try reflexivity. eexists; reflexivity.
Qed.

(** The check on a run that makes it: root dropping to user and group
    1000. *)
Lemma drop_root_privileges_verified_witness :
  (os_geteuid (os (start Linux.root [])) = 0%N \/
   os_getegid (os (start Linux.root [])) = 0%N) /\
  drop_is_verified 1000 1000 (start Linux.root []).
Proof.
  split.
  - left. reflexivity.
  - apply (drop_root_privileges_verified 1000 1000 (start Linux.root [])).
    left. reflexivity.
Defined.

(** C2 on the code.  root in a container without CAP_SETGID drops to user
    1000 and keeps its group: setgroups answers -1, the function goes on
    and returns, and the process keeps the supplementary groups 0, 4 and 27
    under its new user id. *)
Theorem setgroups_failure_is_ignored :
  let s := start Linux.root_without_setgid [] in
  let o := drop_root_privileges_by_id 1000 0 s in
  returns o tt /\
  events_since s o =
    [Getgid 0; Getegid 0; Geteuid 0; Setgroups [0%N] (-1);
     Setreuid 1000 1000 0; Seteuid 0 (-1); Geteuid 1000] /\
  identity (os (final o)) = ((1000, 1000), (0, 0))%N /\
  Linux.groups (os (final o)) = [0; 4; 27]%N.
Proof. cbv zeta. split; [eexists|]; repeat split; reflexivity. Qed.

(** CPU 2 on a machine of four CPUs, all in the mask. *)
Lemma is_cpu_offline_result_witness :
  is_int 2 /\
  exists v,
    returns (is_cpu_offline 2 (start Linux.root [])) v /\
    (v = 1 <-> ~ member 2 15) /\ (v = 0 <-> member 2 15).
Proof.
  assert (Hint : is_int 2) by (unfold is_int; lia).
  split; [exact Hint|].
  destruct (is_cpu_offline_result 2 (start Linux.root []) Hint)
    as (v & Hv & _ & _ & H).
  exists v. split; [exact Hv|]. apply H. discriminate.
Defined.

(** A user's process asking for its own ids: four queries and nothing
    else. *)
Lemma drop_root_privileges_not_root_witness :
  let s := start Linux.user [] in
  let o := drop_root_privileges_by_id 0 0 s in
  (os_geteuid (os s) <> 0%N /\ os_getegid (os s) <> 0%N) /\
  returns o tt /\ os (final o) = Linux.user /\
  events_since s o =
    [Getgid 1000; Getegid 1000; Getuid 1000; Geteuid 1000].
Proof.
  cbv zeta.
  assert (Hu : os_geteuid (os (start Linux.user [])) <> 0%N)
    by discriminate.
  assert (Hg : os_getegid (os (start Linux.user [])) <> 0%N)
    by discriminate.
  split; [split; assumption|].
  destruct (drop_root_privileges_not_root 0 0 (start Linux.user []) Hu Hg)
    as (Hr & Hos & _ & _ & Ht).
  split; [exact Hr|]. split; [exact Hos|]. exact Ht.
Defined.

(** C8, as stated, fails for a CPU a set cannot hold: no set contains
    exactly CPU 1024, and what bind_cpu applies for it is the empty set,
    which the system refuses. *)
Lemma bind_cpu_beyond_the_set :
  let s := start Linux.root [] in
  let o := bind_cpu 1024 NULL s in
  ~ bind_cpu_refines (world := Linux.process) 1024 NULL /\
  returns o (-1) /\
  events_since s o =
    [Sched_setaffinity cpu_zero (-1);
     Warn "Could not set CPU affinity of process" []].
Proof.
  cbv zeta. split.
  - intros (set & [_ Hex] & _).
    destruct (proj2 (Hex 1024) eq_refl) as [Hr _].
    unfold CPU_SETSIZE in Hr. lia.
  - split; [eexists|]; reflexivity.
Qed.

(** CPU 2 is within the set. *)
Lemma bind_cpu_refines_bind_context_witness :
  0 <= 2 < CPU_SETSIZE /\ bind_cpu_refines (world := Linux.process) 2 NULL.
Proof.
  assert (Hr : 0 <= 2 < CPU_SETSIZE) by (unfold CPU_SETSIZE; lia).
  split; [exact Hr|]. apply (bind_cpu_refines_bind_context 2 NULL Hr).
Defined.

(** Within the set, on a machine of four CPUs: the process ends on CPU 2
    and the caller's object holds the four CPUs it ran on before. *)
Example bind_cpu_2 :
  let s := start Linux.root [0%N] in
  let o := bind_cpu 2 (Ptr 0%nat) s in
  returns o 0 /\
  events_since s o = [Sched_getaffinity 0 15; Sched_setaffinity 4 0] /\
  mem (final o) = [15%N] /\
  Linux.affinity (os (final o)) = 4%N.
Proof. cbv zeta. split; [eexists|]; repeat split; reflexivity. Qed.

(** The same object given as the new affinity and as the place for the
    previous one: the read overwrites it, so the affinity applied is the
    one the process had, not the set the object held. *)
Example bind_context_on_one_object :
  let s := start Linux.root [4%N] in
  let o := bind_context (Ptr 0%nat) (Ptr 0%nat) s in
  returns o 0 /\
  events_since s o = [Sched_getaffinity 0 15; Sched_setaffinity 15 0] /\
  mem (final o) = [15%N] /\
  Linux.affinity (os (final o)) = 15%N.
Proof. cbv zeta. split; [eexists|]; repeat split; reflexivity. Qed.

(** A process confined to CPUs 0 and 1 finds CPU 2 "offline" and CPU 1
    not. *)
Example is_cpu_offline_by_affinity :
  let s := start (Linux.with_affinity 3 Linux.root) [] in
  returns (is_cpu_offline 2 s) 1 /\
  events_since s (is_cpu_offline 2 s) =
    [Sched_getaffinity 0 3; Warn "CPU %d is offline" [2]] /\
  returns (is_cpu_offline 1 s) 0 /\
  returns (is_cpu_offline 1024 s) 1 /\
  returns (is_cpu_offline (-1) s) 1.
Proof. cbv zeta. repeat split; try (eexists; reflexivity). Qed.

(** root drops its capabilities: the four calls, nothing written, and the
    process is left without them. *)
Example root_drops_capabilities :
  let s := start Linux.root [] in
  let o := drop_capabilities s in
  returns o tt /\
  events_since s o =
    [Cap_get_proc Linux.handle; Cap_clear Linux.handle 0;
     Cap_set_proc Linux.handle 0; Cap_free Linux.handle 0] /\
  Linux.cap_setuid (os (final o)) = false /\
  Linux.cap_setgid (os (final o)) = false.
Proof. cbv zeta. split; [eexists|]; repeat split; reflexivity. Qed.

(** A life of the flag in root's process: three calls before enable_debug,
    four after it, among them a drop of privileges and a second
    enable_debug. *)
Lemma debug_flag_lifecycle_witness :
  let before := [Is_debug_enabled; Bind_cpu 1 NULL; Is_cpu_offline 3] in
  let after := [Drop_root_privileges_by_id 1000 1000; Drop_capabilities;
                Enable_debug; Is_cpu_offline 0] in
  let s0 := start Linux.root [] in
  let s1 := final (perform_all before s0) in
  let s2 := final (enable_debug s1) in
  let s3 := final (perform_all after s2) in
  existsb is_enable_debug before = false /\
  is_debug_enabled s0 = Returns 0 s0 /\
  is_debug_enabled s1 = Returns 0 s1 /\
  is_debug_enabled s2 = Returns 1 s2 /\
  is_debug_enabled s3 = Returns 1 s3 /\
  enable_debug s2 = Returns tt s2 /\
  enable_debug s3 = Returns tt s3.
Proof.
  intros before after s0 s1 s2 s3.
  assert (H : existsb is_enable_debug before = false) by reflexivity.
  split; [exact H|].
  exact (debug_flag_lifecycle Linux.root [] before after H).
Defined.

(** root asking for its own ids: the targets are the ids it has. *)
Lemma drop_root_privileges_nothing_to_change_witness :
  let s := start Linux.root [] in
  let o := drop_root_privileges_by_id 0 0 s in
  (os_geteuid (os s) = 0%N /\
   target_gid 0 (os s) = os_getegid (os s) /\
   target_uid 0 (os s) = os_geteuid (os s)) /\
  returns o tt /\
  (exists rc,
     events_since s o =
     queries 0 0 (os s) ++ [Setgroups [target_gid 0 (os s)] rc]) /\
  identity (os (final o)) = identity (os s).
Proof.
  cbv zeta.
  assert (Hu : os_geteuid (os (start Linux.root [])) = 0%N)
    by reflexivity.
  assert (Hg : target_gid 0 (os (start Linux.root []))
               = os_getegid (os (start Linux.root []))) by reflexivity.
  assert (Ht' : target_uid 0 (os (start Linux.root []))
                = os_geteuid (os (start Linux.root []))) by reflexivity.
  split; [repeat split; assumption|].
  destruct (drop_root_privileges_nothing_to_change
              0 0 (start Linux.root []) Hu Hg Ht'
              linux_setgroups_keeps_identity)
    as (Hr & Ht & _ & Hid).
  split; [exact Hr|]. split; [exact Ht|]. exact Hid.
Defined.

(** ** Further properties of util.c *)

Section Body.

Context {world : Type} {system : OS world}.

(** The queries are queries. *)
Lemma queries_only_ask (uid : uid_t) (gid : gid_t) (w : world) (e : event) :
  In e (queries uid gid w) ->
  match e with
  | Getgid _ | Getegid _ | Getuid _ | Geteuid _ => True
  | _ => False
  end.
Proof.
  unfold queries. destruct (gid =? 0)%N, (uid =? 0)%N; cbn [app In];
    intros H; repeat (destruct H as [<- | H]; [exact I|]); contradiction.
Qed.

Lemma queries_make_no_step (uid : uid_t) (gid : gid_t) (w : world) :
  flat_map step (queries uid gid w) = [].
Proof.
  unfold queries. destruct (gid =? 0)%N, (uid =? 0)%N; reflexivity.
Qed.

Lemma drop_root_privileges_by_id_body (uid : uid_t) (gid : gid_t)
      (s : state world) :
  drop_root_privileges_by_id uid gid s =
  drop_with (target_gid gid (os s)) (os_getegid (os s))
            (target_uid uid (os s)) (os_geteuid (os s))
            (mkState (debug_enabled s) (mem s) (os s)
                     (trace s ++ queries uid gid (os s))).
Proof.
  unfold drop_root_privileges_by_id, target_gid, target_uid, queries.
  change (drop_root_privileges_by_id uid gid s) with
    (bind (if (0 <? gid)%N then ret gid else getgid) (fun newgid =>
     bind getegid (fun oldgid =>
     bind (if (0 <? uid)%N then ret uid else getuid) (fun newuid =>
     bind geteuid (fun olduid =>
     drop_with newgid oldgid newuid olduid)))) s).
  destruct (N.eqb_spec gid 0) as [->|Hg]; destruct (N.eqb_spec uid 0)
    as [->|Hu];
    repeat match goal with
    | H : ?x <> 0%N |- _ =>
        replace (0 <? x)%N with true by (symmetry; apply N.ltb_lt; lia);
        clear H
    end;
    cbv beta iota delta [bind ret getgid getegid getuid geteuid observe log
                         N.ltb N.compare];
    cbn [final debug_enabled mem os trace app];
    repeat rewrite <- app_assoc; reflexivity.
Qed.

End Body.

Lemma ends_with_here (l : list event) : ends_with l l.
Proof. exists []. reflexivity. Qed.

Lemma ends_with_later (e : event) (t l : list event) :
  ends_with t l -> ends_with (e :: t) l.
Proof. intros [t' ->]. exists (e :: t'). reflexivity. Qed.

Lemma ends_with_after (q t l : list event) :
  ends_with t l -> ends_with (q ++ t) l.
Proof. intros [t' ->]. exists (q ++ t'). apply app_assoc. Qed.

(** Finds the end of a trace that is written out, after the queries. *)
Ltac find_end :=
  solve [ try apply ends_with_after;
          repeat first [ apply ends_with_here | apply ends_with_later ] ].

(** Goes through [Hin : In x (queries ++ [e1; ...])] for an [x] that is no
    query: events of another kind than [x] are let go, and [tac] has to
    deal with one of [x]'s kind. *)
Ltac each_event Hin tac :=
  first
    [ apply queries_only_ask in Hin; contradiction
    | apply in_app_or in Hin; destruct Hin as [Hin | Hin];
      [ apply queries_only_ask in Hin; contradiction
      | cbn [In] in Hin;
        repeat (destruct Hin as [Hin | Hin];
                [ first [ discriminate Hin | inversion Hin; subst; tac ] | ]);
        try contradiction ] ].

(** [since] for a run that starts with the queries, which stay folded. *)
Ltac since_queries :=
  match goal with
  | |- context [events_since ?s ?o] =>
      let H := fresh in
      eassert (H : events_since s o = _)
        by (apply events_since_app; cbn [final trace];
            repeat rewrite <- app_assoc;
            repeat match goal with
                   | |- context [[?e] ++ ?l] =>
                       change ([e] ++ l) with (e :: l)
                   end;
            reflexivity);
      rewrite H; clear H
  end.

(** The cases of a run of drop_root_privileges_by_id named [o] in the
    context, made on the body with the four locals as variables. *)
Ltac cases_of_drop uid gid s :=
  match goal with
  | o := drop_root_privileges_by_id uid gid s |- _ =>
      let Ho := fresh "Ho" in
      pose proof (eq_sym (drop_root_privileges_by_id_body uid gid s)) as Ho;
      change (drop_root_privileges_by_id uid gid s) with o in Ho;
      clearbody o; revert Ho;
      generalize (target_gid gid (os s)) (os_getegid (os s))
                 (target_uid uid (os s)) (os_geteuid (os s));
      intros newgid oldgid newuid olduid;
      unfold drop_with; run_cases; intros <-
  end.

Section MorePrivileges.

Context {world : Type} {system : OS world}.

(** X1.  In drop_root_privileges_by_id a change of the ids that answers -1
    and a probe that hands the old effective id back each end the process
    at once: the failing call is the last one made, the next event is the
    line of [err] (for setregid and setreuid) or of [errx] (for setegid and
    seteuid) naming the group or the user, and the status is 1. *)
Theorem bad_answer_ends_the_process (uid : uid_t) (gid : gid_t)
        (s : state world) :
  let o := drop_root_privileges_by_id uid gid s in
  let t := events_since s o in
  (forall r e, In (Setregid r e (-1)) t ->
     exits o 1 /\
     ends_with t [Setregid r e (-1); Err 1 group_message]) /\
  (forall r e, In (Setreuid r e (-1)) t ->
     exits o 1 /\
     ends_with t [Setreuid r e (-1); Err 1 user_message]) /\
  (forall g rc, In (Setegid g rc) t -> rc <> -1 ->
     exits o 1 /\
     ends_with t [Setegid g rc; Errx 1 group_message]) /\
  (forall u rc, In (Seteuid u rc) t -> rc <> -1 ->
     exits o 1 /\
     ends_with t [Seteuid u rc; Errx 1 user_message]).
Proof.
  intros o t. subst t. unfold exits, group_message, user_message.
  cases_of_drop uid gid s.
  all: since_queries.
  all: split; [|split; [|split]]; intros a b Hin;
    try intros Hrc;
    each_event Hin
      ltac:(first [ exfalso; congruence
                  | split; [solve [eauto] | find_end] ]).
Qed.

(** X2.  A run of drop_root_privileges_by_id returns, or ends the process
    with status 1 and a trace that ends in one of six ways: setregid or
    setreuid on the target answered -1 and [err] wrote the line of the
    group or of the user; or a check did not hold and [errx] wrote it, the
    old effective id having been set back with success, or the id in
    force after the refusal being another than the target. *)
Theorem every_end_has_its_cause (uid : uid_t) (gid : gid_t)
        (s : state world) :
  let o := drop_root_privileges_by_id uid gid s in
  let t := events_since s o in
  returns o tt \/
  (exits o 1 /\
   exists l,
     fatal_end (target_gid gid (os s)) (os_getegid (os s))
               (target_uid uid (os s)) (os_geteuid (os s)) l /\
     ends_with t l).
Proof.
  intros o t. subst t. unfold returns, exits, group_message, user_message.
  cases_of_drop uid gid s.
  all: since_queries.
  all: repeat match goal with H : ?z = -1 |- _ => subst z end.
  all: first
    [ left; solve [eauto]
    | right; split; [solve [eauto]|];
      first
        [ exists [Setregid newgid newgid (-1); Err 1 group_message];
          split; [apply setregid_failed | find_end]
        | exists [Setreuid newuid newuid (-1); Err 1 user_message];
          split; [apply setreuid_failed | find_end]
        | eexists [Setegid oldgid _; Errx 1 group_message];
          split; [|find_end]; apply gid_taken_back; congruence
        | eexists [Setegid oldgid (-1); Getegid _; Errx 1 group_message];
          split; [|find_end]; apply gid_not_target; congruence
        | eexists [Seteuid olduid _; Errx 1 user_message];
          split; [|find_end]; apply uid_taken_back; congruence
        | eexists [Seteuid olduid (-1); Geteuid _; Errx 1 user_message];
          split; [|find_end]; apply uid_not_target; congruence ] ].
Qed.

(** X3.  The calls of drop_root_privileges_by_id that change or probe what
    the process may do come in the order of the source, each at most once:
    setgroups, setregid, setreuid, then the probes setegid and seteuid; the
    groups and the group id are dealt with before the user id is given up.
    setgroups is called exactly in a process of effective uid 0: one with
    effective gid 0 only keeps its supplementary groups. *)
Theorem privileges_go_in_order (uid : uid_t) (gid : gid_t)
        (s : state world) :
  let o := drop_root_privileges_by_id uid gid s in
  let t := events_since s o in
  increasing (flat_map step t) /\
  ((exists l rc, In (Setgroups l rc) t) <-> os_geteuid (os s) = 0%N).
Proof.
  intros o t. subst t.
  cases_of_drop uid gid s.
  all: since_queries.
  all: split;
    [ rewrite ?flat_map_app, ?queries_make_no_step;
      cbn [flat_map step app increasing]; repeat split; lia
    | split;
      [ intros (l & rc & Hin);
        each_event Hin ltac:(first [assumption | congruence])
      | intros Hz;
        first [ exfalso; congruence
              | do 2 eexists; apply in_or_app; right; cbn [In];
                solve [eauto 10] ] ] ].
Qed.

(** X4.  drop_root_privileges_by_id sets and probes an id only past the
    not-root return and only when its target differs from the old effective
    id: an id that is already the target is left alone.  The probes name
    the old effective id. *)
Theorem only_ids_to_change_are_touched (uid : uid_t) (gid : gid_t)
        (s : state world) :
  let o := drop_root_privileges_by_id uid gid s in
  let t := events_since s o in
  let past_return := os_geteuid (os s) = 0%N \/ os_getegid (os s) = 0%N in
  (forall r e rc, In (Setregid r e rc) t ->
     past_return /\ target_gid gid (os s) <> os_getegid (os s)) /\
  (forall g rc, In (Setegid g rc) t ->
     past_return /\ target_gid gid (os s) <> os_getegid (os s) /\
     g = os_getegid (os s)) /\
  (forall r e rc, In (Setreuid r e rc) t ->
     past_return /\ target_uid uid (os s) <> os_geteuid (os s)) /\
  (forall u rc, In (Seteuid u rc) t ->
     past_return /\ target_uid uid (os s) <> os_geteuid (os s) /\
     u = os_geteuid (os s)).
Proof.
  intros o t past_return. subst t past_return.
  cases_of_drop uid gid s.
  all: since_queries.
  all: split; [|split; [|split]]; intros;
    match goal with
    | Hin : In _ _ |- _ =>
        each_event Hin ltac:(repeat split; solve [auto | congruence])
    end.
Qed.

(** X5.  When drop_root_privileges_by_id returns past the not-root return
    after a change of the user id, the effective uid of the process is the
    target: its last call is the query that showed it.  The same holds for
    the effective gid when the group alone had to change. *)
Theorem returns_with_the_target_in_force (uid : uid_t) (gid : gid_t)
        (s : state world) :
  os_geteuid (os s) = 0%N \/ os_getegid (os s) = 0%N ->
  let o := drop_root_privileges_by_id uid gid s in
  returns o tt ->
  (target_uid uid (os s) <> os_geteuid (os s) ->
   os_geteuid (os (final o)) = target_uid uid (os s)) /\
  (target_gid gid (os s) <> os_getegid (os s) ->
   target_uid uid (os s) = os_geteuid (os s) ->
   os_getegid (os (final o)) = target_gid gid (os s)).
Proof.
  intros Hpast o. unfold returns. revert Hpast.
  cases_of_drop uid gid s.
  all: intros Hpast [s' Hs']; try discriminate Hs'.
  all: cbn [final os]; split; intros;
    first [ assumption | congruence
          | exfalso; destruct Hpast; congruence ].
Qed.

(** X6.  The debug flag changes nothing in drop_root_privileges_by_id but
    the line of [DEBUG]: run with any other value of the flag, the function
    ends the same way, makes the same calls with the same answers, leaves
    the same world and the same objects, and does not touch the flag. *)
Theorem debug_flag_changes_the_log_only (uid : uid_t) (gid : gid_t)
        (d : int) (s : state world) :
  let o1 := drop_root_privileges_by_id uid gid s in
  let o2 := drop_root_privileges_by_id uid gid (with_debug d s) in
  (returns o1 tt <-> returns o2 tt) /\
  (exits o1 1 <-> exits o2 1) /\
  os (final o1) = os (final o2) /\
  mem (final o1) = mem (final o2) /\
  debug_enabled (final o2) = d /\
  filter not_debug_line (events_since s o1) =
  filter not_debug_line (events_since (with_debug d s) o2).
Proof.
  intros o1 o2. unfold returns, exits.
  pose proof (eq_sym (drop_root_privileges_by_id_body uid gid s)) as H1.
  pose proof (eq_sym (drop_root_privileges_by_id_body uid gid
                        (with_debug d s))) as H2.
  change (drop_root_privileges_by_id uid gid s) with o1 in H1.
  change (drop_root_privileges_by_id uid gid (with_debug d s)) with o2
    in H2.
  clearbody o1 o2. unfold with_debug in *.
  cbn [os mem trace debug_enabled] in H2. revert H1 H2.
  generalize (target_gid gid (os s)) (os_getegid (os s))
             (target_uid uid (os s)) (os_geteuid (os s)).
  intros newgid oldgid newuid olduid.
  unfold drop_with. run_cases. all: intros <- <-.
  all: repeat since_queries; rewrite ?filter_app;
    cbn [final os mem debug_enabled filter not_debug_line];
    rewrite ?app_nil_r;
    repeat split; try reflexivity; try solve [eauto];
    intros [s' Hs']; discriminate Hs'.
Qed.

End MorePrivileges.

Lemma store_at_beyond (a : addr) (v : N) (m : memory) :
  (length m <= a)%nat -> store_at a v m = m.
Proof.
  revert a. induction m as [|y m IH]; intros [|a] H; simpl in *;
    try reflexivity; try lia.
  rewrite IH by lia. reflexivity.
Qed.

(** A write below a local that is then given up is the write without the
    local; a write to the local or beyond is lost with it. *)
Lemma pop_after_store (a : addr) (v x : N) (m : memory) :
  removelast (store_at a v (m ++ [x])) = store_at a v m.
Proof.
  destruct (Nat.lt_ge_cases a (length m)) as [Hlt | Hge].
  - rewrite store_at_below by exact Hlt. apply removelast_last.
  - rewrite (store_at_beyond a v m Hge).
    destruct (Nat.eq_dec a (length m)) as [-> | Hne].
    + rewrite store_at_top. apply removelast_last.
    + rewrite store_at_beyond by (rewrite length_app; simpl; lia).
      apply removelast_last.
Qed.

Lemma cpu_set_outside (cpu : Z) (set : N) :
  is_int cpu -> ~ 0 <= cpu < CPU_SETSIZE -> cpu_set cpu set = set.
Proof.
  intros Hint Hout. unfold cpu_set. cbv zeta.
  destruct (size_t_of_int cpu <? CPU_SETSIZE) eqn:E; [|reflexivity].
  destruct (size_t_of_int_in_range cpu Hint E) as [Hr _]. contradiction.
Qed.

Lemma cpu_isset_outside (cpu : Z) (set : N) :
  is_int cpu -> ~ 0 <= cpu < CPU_SETSIZE -> cpu_isset cpu set = false.
Proof.
  intros Hint Hout. unfold cpu_isset. cbv zeta.
  destruct (size_t_of_int cpu <? CPU_SETSIZE) eqn:E; [|reflexivity].
  destruct (size_t_of_int_in_range cpu Hint E) as [Hr _]. contradiction.
Qed.

Section MoreAffinity.

Context {world : Type} {system : OS world}.

(** X7.  bind_context and bind_cpu write one object at most, the place for
    the previous affinity: the objects afterwards are those before with
    one value stored there, and with NULL for the place they are those
    before.  The object of the new affinity is only read, and nothing is
    left of bind_cpu's local. *)
Theorem only_the_saving_place_is_written (cpu : int)
        (new_context old_context : pointer) (s : state world) :
  (exists v, mem (final (bind_context new_context old_context s))
             = store old_context v (mem s)) /\
  (exists v, mem (final (bind_cpu cpu old_context s))
             = store old_context v (mem s)).
Proof.
  split.
  - unfold bind_context. destruct old_context as [|q];
      cbn [is_null negb]; run_cases; reduce_run;
      solve [exists cpu_zero; reflexivity | eexists; reflexivity].
  - unfold bind_cpu, bind_context. destruct old_context as [|q];
      cbn [is_null negb]; unfold_run;
      repeat (rewrite store_at_top || rewrite nth_middle).
    + run_cases; reduce_run; rewrite removelast_last;
        exists cpu_zero; reflexivity.
    + destruct (os_sched_getaffinity _ (os s)) as [[rc previous] w1].
      run_cases; reduce_run; rewrite pop_after_store;
        eexists; reflexivity.
Qed.

(** X8.  What bind_cpu saves is what a later bind_context hands back.
    When bind_cpu returns 0 with a valid place for the previous affinity,
    the place holds the mask the system reported before the change, and
    bind_context on that place (with NULL for a place of its own) makes one
    call, sched_setaffinity with that mask, writes no object, and returns 0
    or, after a warning, -1 as that call answers. *)
Theorem saved_affinity_is_handed_back (cpu : int) (old_context : pointer)
        (s : state world) :
  valid old_context (mem s) ->
  let o1 := bind_cpu cpu old_context s in
  returns o1 0 ->
  let previous :=
    snd (fst (os_sched_getaffinity (load old_context (mem s)) (os s))) in
  let o2 := bind_context old_context NULL (final o1) in
  load old_context (mem (final o1)) = previous /\
  exists rc,
    events_since (final o1) o2 =
      Sched_setaffinity previous rc
      :: (if rc =? -1
          then [Warn "Could not set CPU affinity of process" []]
          else []) /\
    returns o2 (if rc =? -1 then -1 else 0) /\
    mem (final o2) = mem (final o1).
Proof.
  destruct old_context as [|q]; [intros []|]. cbn [valid]. intros Hq.
  cbv zeta. unfold returns, bind_cpu, bind_context.
  cbn [is_null negb load]. unfold_run.
  repeat (rewrite store_at_top || rewrite nth_middle).
  rewrite app_nth1 by exact Hq.
  destruct (os_sched_getaffinity (nth q (mem s) cpu_zero) (os s))
    as [[rc_read previous] w1].
  rewrite store_at_below by exact Hq. cbn [fst snd].
  destruct (Z.eqb_spec rc_read (-1)) as [->|Hread]; unfold_run.
  { intros [s' Hs']. discriminate Hs'. }
  rewrite nth_top_after_store.
  destruct (os_sched_setaffinity (cpu_set cpu cpu_zero) w1) as [rc1 w2].
  destruct (Z.eqb_spec rc1 (-1)) as [->|Hrc1]; unfold_run.
  { intros [s' Hs']. discriminate Hs'. }
  intros _. rewrite removelast_last.
  rewrite nth_store_at_same by exact Hq.
  split; [reflexivity|].
  destruct (os_sched_setaffinity previous w2) as [rc w3].
  exists rc.
  destruct (Z.eqb_spec rc (-1)) as [->|Hrc]; unfold_run;
    (split; [apply events_since_app; trace_eq|]);
    (split; [eexists; reflexivity | reflexivity]).
Qed.

(** X9.  One object given to bind_context both as the new affinity and as
    the place for the previous one: when the read succeeds, the set the
    object held is lost, and the mask applied is the one just read, the
    affinity the process already had. *)
Theorem one_object_for_both_affinities (context : pointer)
        (s : state world) :
  valid context (mem s) ->
  let read := os_sched_getaffinity (load context (mem s)) (os s) in
  let previous := snd (fst read) in
  fst (fst read) <> -1 ->
  let o := bind_context context context s in
  load context (mem (final o)) = previous /\
  exists rc,
    events_since s o =
      Sched_getaffinity (fst (fst read)) previous
      :: Sched_setaffinity previous rc
      :: (if rc =? -1
          then [Warn "Could not set CPU affinity of process" []]
          else []).
Proof.
  destruct context as [|q]; [intros []|]. cbn [valid]. intros Hq.
  cbv zeta. unfold bind_context. cbn [is_null negb load]. unfold_run.
  destruct (os_sched_getaffinity (nth q (mem s) cpu_zero) (os s))
    as [[rc_read previous] w1].
  cbn [fst snd]. intros Hread.
  destruct (Z.eqb_spec rc_read (-1)) as [Heq|_]; [contradiction|].
  unfold_run. rewrite nth_store_at_same by exact Hq.
  destruct (os_sched_setaffinity previous w1) as [rc w2].
  destruct (Z.eqb_spec rc (-1)) as [->|Hrc]; unfold_run;
    rewrite nth_store_at_same by exact Hq;
    (split; [reflexivity|]).
  - exists (-1). apply events_since_app; trace_eq.
  - exists rc. etransitivity; [apply events_since_app; trace_eq|].
    destruct (Z.eqb_spec rc (-1)); [contradiction | reflexivity].
Qed.

(** X10.  For a CPU index a set has no bit for (negative, or
    [CPU_SETSIZE] and more) bind_cpu does not fail by itself: CPU_SET
    leaves the local set empty, and the one affinity the call may hand to
    the system is the empty set, whose fate is the system's. *)
Theorem bind_cpu_outside_the_set (cpu : int) (old_context : pointer)
        (s : state world) :
  is_int cpu ->
  ~ 0 <= cpu < CPU_SETSIZE ->
  old_context = NULL \/ valid old_context (mem s) ->
  let o := bind_cpu cpu old_context s in
  let t := events_since s o in
  (exists v, returns o v) /\
  (forall mask rc, In (Sched_setaffinity mask rc) t -> mask = cpu_zero) /\
  (old_context = NULL -> exists rc, In (Sched_setaffinity cpu_zero rc) t).
Proof.
  intros Hint Hout Hold. cbv zeta. unfold returns, bind_cpu, bind_context.
  destruct old_context as [|q]; cbn [is_null negb load]; unfold_run.
  - repeat (rewrite store_at_top || rewrite nth_middle).
    rewrite (cpu_set_outside cpu cpu_zero Hint Hout).
    destruct (os_sched_setaffinity cpu_zero (os s)) as [rc w].
    destruct (Z.eqb_spec rc (-1)) as [->|Hrc]; unfold_run; since;
      (split; [eauto|]); cbn [In];
      (split; [intros mask rc' Hin; intuition congruence
              |intros _; eauto]).
  - destruct Hold as [Hold | Hq]; [discriminate|]. cbn [valid] in Hq.
    repeat (rewrite store_at_top || rewrite nth_middle).
    rewrite (cpu_set_outside cpu cpu_zero Hint Hout).
    rewrite app_nth1 by exact Hq.
    destruct (os_sched_getaffinity (nth q (mem s) cpu_zero) (os s))
      as [[rc_read previous] w1].
    rewrite store_at_below by exact Hq.
    destruct (Z.eqb_spec rc_read (-1)) as [->|Hread]; unfold_run.
    + since. split; [eauto|]. cbn [In].
      split; [intros mask rc' Hin; intuition congruence|discriminate].
    + rewrite nth_top_after_store.
      destruct (os_sched_setaffinity cpu_zero w1) as [rc w2].
      destruct (Z.eqb_spec rc (-1)) as [->|Hrc]; unfold_run; since;
        (split; [eauto|]); cbn [In];
        (split; [intros mask rc' Hin; intuition congruence|discriminate]).
Qed.

(** X11.  is_cpu_offline only asks: it makes one call, the query of the
    affinity, and no call that sets one; the world afterwards is the one
    that query left, and the caller's objects are as they were.  It
    writes a warning exactly when its result is not 0, be it -1 or 1. *)
Theorem is_cpu_offline_only_asks (cpu : int) (s : state world) :
  let o := is_cpu_offline cpu s in
  let t := events_since s o in
  let read := os_sched_getaffinity cpu_zero (os s) in
  os (final o) = snd read /\
  mem (final o) = mem s /\
  exists v,
    returns o v /\
    (exists t',
       t = Sched_getaffinity (fst (fst read)) (snd (fst read)) :: t' /\
       (v = 0 -> t' = []) /\
       (v <> 0 -> exists msg args, t' = [Warn msg args])).
Proof.
  cbv zeta. unfold is_cpu_offline, returns. unfold_run.
  rewrite store_at_top, nth_middle.
  destruct (os_sched_getaffinity cpu_zero (os s)) as [[rc mask] w].
  cbn [fst snd].
  destruct (Z.eqb_spec rc (-1)) as [->|Hrc]; unfold_run.
  - rewrite store_at_top, removelast_last.
    split; [reflexivity|]. split; [reflexivity|].
    exists (-1). split; [eauto|]. since.
    eexists. split; [reflexivity|]. split; [discriminate | eauto].
  - rewrite store_at_top, nth_middle.
    destruct (cpu_isset cpu mask); unfold_run;
      rewrite removelast_last;
      (split; [reflexivity|]); (split; [reflexivity|]).
    + exists 0. split; [eauto|]. since.
      eexists. split; [reflexivity|]. split; [reflexivity | congruence].
    + exists 1. split; [eauto|]. since.
      eexists. split; [reflexivity|]. split; [discriminate | eauto].
Qed.

(** X12.  A CPU index a set has no bit for is reported offline: for a
    negative [cpu], or one of [CPU_SETSIZE] and more, is_cpu_offline
    answers 1 whenever the affinity can be read, whatever the mask. *)
Theorem is_cpu_offline_outside_the_set (cpu : int) (s : state world) :
  is_int cpu ->
  ~ 0 <= cpu < CPU_SETSIZE ->
  fst (fst (os_sched_getaffinity cpu_zero (os s))) <> -1 ->
  returns (is_cpu_offline cpu s) 1.
Proof.
  intros Hint Hout. unfold is_cpu_offline, returns. unfold_run.
  rewrite store_at_top, nth_middle.
  destruct (os_sched_getaffinity cpu_zero (os s)) as [[rc mask] w].
  cbn [fst snd]. intros Hrc.
  destruct (Z.eqb_spec rc (-1)) as [Heq|_]; [contradiction|].
  unfold_run. rewrite store_at_top, nth_middle.
  rewrite (cpu_isset_outside cpu mask Hint Hout). unfold_run. eauto.
Qed.

End MoreAffinity.

(** ** The module as a whole *)

Section WholeModule.

Context {world : Type} {system : OS world}.

(** X13.  Of all the calls of util.c only the two drops can end the
    process: enable_debug, is_debug_enabled, bind_cpu, bind_context and
    is_cpu_offline return whatever the system answers.  When a drop ends
    the process the status is 1 and the last thing written is a line of
    [err] or [errx] with that status. *)
Theorem only_the_drops_end_the_process (op : operation) (s : state world) :
  let o := perform op s in
  returns o tt \/
  (exits o 1 /\ is_drop op = true /\
   exists t' e, trace (final o) = t' ++ [e] /\ is_fatal_line e).
Proof.
  intros o. unfold returns, exits, is_fatal_line.
  destruct op as [| | |uid gid|cpu old|new old|cpu];
    cbn [perform is_drop] in *.
  - left. subst o. unfold enable_debug. eauto.
  - left. subst o. unfold_run. eauto.
  - subst o. unfold drop_capabilities. unfold_run.
    destruct (os_cap_get_proc (os s)) as [[|a] w1];
      cbn [is_null]; run_cases.
    all: first
      [ left; solve [eauto]
      | right; split; [solve [eauto]|]; split; [reflexivity|];
        cbn [final trace]; eexists _, _; split; [reflexivity|];
        eexists; eauto ].
  - cases_of_drop uid gid s.
    all: first
      [ left; solve [eauto]
      | right; split; [solve [eauto]|]; split; [reflexivity|];
        cbn [final trace]; eexists _, _; split; [reflexivity|];
        eexists; eauto ].
  - left. subst o. unfold bind_cpu, bind_context.
    destruct old; cbn [is_null negb]; run_cases; eauto.
  - left. subst o. unfold bind_context.
    destruct old; cbn [is_null negb]; run_cases; eauto.
  - left. subst o. unfold is_cpu_offline. run_cases; [eauto|].
    match goal with
    | |- context [cpu_isset ?c ?m] => destruct (cpu_isset c m)
    end; unfold_run; eauto.
Qed.

End WholeModule.

(** ** Further runs on the Linux process *)

(** root dropping to user and group 1000 ends as user 1000. *)
Lemma returns_with_the_target_in_force_witness :
  let s := start Linux.root [] in
  let o := drop_root_privileges_by_id 1000 1000 s in
  (os_geteuid (os s) = 0%N \/ os_getegid (os s) = 0%N) /\
  returns o tt /\
  os_geteuid (os (final o)) = 1000%N.
Proof.
  cbv zeta.
  assert (Hpast : os_geteuid (os (start Linux.root [])) = 0%N \/
                  os_getegid (os (start Linux.root [])) = 0%N)
    by (left; reflexivity).
  assert (Hr : returns
                 (drop_root_privileges_by_id 1000 1000 (start Linux.root []))
                 tt)
    by (eexists; reflexivity).
  split; [exact Hpast|]. split; [exact Hr|].
  destruct (returns_with_the_target_in_force
              1000 1000 (start Linux.root []) Hpast Hr) as [Hu _].
  apply Hu. discriminate.
Defined.

(** The process runs on CPUs 0 to 3 and binds itself to CPU 2: the
    caller's object then holds the four CPUs, ready to be handed back. *)
Lemma saved_affinity_is_handed_back_witness :
  let s := start Linux.root [0%N] in
  let o1 := bind_cpu 2 (Ptr 0%nat) s in
  valid (Ptr 0%nat) (mem s) /\
  returns o1 0 /\
  load (Ptr 0%nat) (mem (final o1)) = 15%N.
Proof.
  cbv zeta.
  assert (Hv : valid (Ptr 0%nat) (mem (start Linux.root [0%N])))
    by (cbn; lia).
  assert (Hr : returns (bind_cpu 2 (Ptr 0%nat) (start Linux.root [0%N])) 0)
    by (eexists; reflexivity).
  split; [exact Hv|]. split; [exact Hr|].
  destruct (saved_affinity_is_handed_back
              2 (Ptr 0%nat) (start Linux.root [0%N]) Hv Hr) as [Hl _].
  exact Hl.
Defined.

(** An object holding CPU 2 alone, given for both: the object ends with
    the four CPUs the process ran on, and CPU 2 was never asked for. *)
Lemma one_object_for_both_affinities_witness :
  let s := start Linux.root [4%N] in
  let o := bind_context (Ptr 0%nat) (Ptr 0%nat) s in
  valid (Ptr 0%nat) (mem s) /\
  load (Ptr 0%nat) (mem (final o)) = 15%N.
Proof.
  cbv zeta.
  assert (Hv : valid (Ptr 0%nat) (mem (start Linux.root [4%N])))
    by (cbn; lia).
  assert (Hread :
            fst (fst (os_sched_getaffinity
                        (load (Ptr 0%nat) (mem (start Linux.root [4%N])))
                        (os (start Linux.root [4%N])))) <> -1)
    by discriminate.
  split; [exact Hv|].
  destruct (one_object_for_both_affinities
              (Ptr 0%nat) (start Linux.root [4%N]) Hv Hread) as [Hl _].
  exact Hl.
Defined.

(** CPU 1024 on Linux: the empty set is asked for. *)
Lemma bind_cpu_outside_the_set_witness :
  let s := start Linux.root [] in
  let o := bind_cpu 1024 NULL s in
  is_int 1024 /\ ~ 0 <= 1024 < CPU_SETSIZE /\
  exists rc, In (Sched_setaffinity cpu_zero rc) (events_since s o).
Proof.
  cbv zeta.
  assert (Hint : is_int 1024) by (unfold is_int; lia).
  assert (Hout : ~ 0 <= 1024 < CPU_SETSIZE) by (unfold CPU_SETSIZE; lia).
  split; [exact Hint|]. split; [exact Hout|].
  destruct (bind_cpu_outside_the_set
              1024 NULL (start Linux.root []) Hint Hout
              (or_introl eq_refl)) as (_ & _ & H).
  apply H. reflexivity.
Defined.

(** A negative index on Linux. *)
Lemma is_cpu_offline_outside_the_set_witness :
  is_int (-1) /\ ~ 0 <= -1 < CPU_SETSIZE /\
  returns (is_cpu_offline (-1) (start Linux.root [])) 1.
Proof.
  assert (Hint : is_int (-1)) by (unfold is_int; lia).
  assert (Hout : ~ 0 <= -1 < CPU_SETSIZE) by (unfold CPU_SETSIZE; lia).
  split; [exact Hint|]. split; [exact Hout|].
  apply (is_cpu_offline_outside_the_set
           (-1) (start Linux.root []) Hint Hout).
  discriminate.
Defined.
